(** * The position sequencer of [simple_position_recorder.py]

    A shallow embedding of [SimplePositionSequencer] (sampler, recorder and
    player) and of [main], with the properties of its specification.

    The program talks to four things outside itself: the operator's
    terminal, the motor bus, the clock and the directory [sequences/].
    They are gathered in a [World]: every call the program makes to one of
    them is appended to the world's [log], and what the bus answers is read
    from an oracle, so that a failing read or write is an ordinary input.
    Python's [float] is IEEE binary64, which is what Rocq's primitive
    floats are. *)

From Stdlib Require Import ZArith Floats Ascii String.
From stdpp Require Import gmap strings list pretty.

Set Warnings "-inexact-float,-register-all".
Local Open Scope Z_scope.
Local Open Scope string_scope.

(** ** Python values and exceptions *)

(** The exceptions the program can meet. [KeyboardInterrupt] is the only one
    that is not an [Exception] in Python's hierarchy. *)
Inductive exn :=
| KeyboardInterrupt
| EOFError
| ValueError
| TypeError
| OverflowError
| KeyError
| NameError
| AttributeError
| OSError.

Inductive result (A : Type) :=
| Ok (a : A)
| Exc (e : exn).
Arguments Ok {A} a.
Arguments Exc {A} e.

Definition is_Exception (e : exn) : bool :=
  match e with KeyboardInterrupt => false | _ => true end.

Definition exn_name (e : exn) : string :=
  match e with
  | KeyboardInterrupt => "KeyboardInterrupt"
  | EOFError => "EOFError"
  | ValueError => "ValueError"
  | TypeError => "TypeError"
  | OverflowError => "OverflowError"
  | KeyError => "KeyError"
  | NameError => "NameError"
  | AttributeError => "AttributeError"
  | OSError => "OSError"
  end.

(** What a register read hands back: a plain integer, or a sequence of
    integers (the bus library answers with an array). *)
Inductive pyval :=
| PInt (z : Z)
| PSeq (l : list Z).

(** [lerobot]'s [TorqueMode] enumeration; the numbers behind [.value] are
    the library's and stay symbolic. *)
Inductive TorqueMode := ENABLED | DISABLED.

(** The value argument of [motor_bus.write]. *)
Inductive wvalue :=
| Num (z : Z)
| Torque (m : TorqueMode).

(** A Python [dict] keeps its keys in insertion order, and the program
    iterates over it: an association list with unique keys. *)
Definition dict (V : Type) := list (string * V).

Fixpoint dict_set {V} (k : string) (v : V) (d : dict V) : dict V :=
  match d with
  | [] => [(k, v)]
  | (k', v') :: d' =>
      if String.eqb k' k then (k, v) :: d' else (k', v') :: dict_set k v d'
  end.

Fixpoint dict_get {V} (k : string) (d : dict V) : option V :=
  match d with
  | [] => None
  | (k', v) :: d' => if String.eqb k' k then Some v else dict_get k d'
  end.

Definition keys {V} (d : dict V) : list string := map fst d.

(** The documents [json.dump] writes and [json.load] reads. The disk holds
    documents, not text: how the [json] library spells a document and reads
    it back is the library's. *)
Inductive json :=
| JInt (z : Z)
| JFloat (f : float)
| JStr (s : string)
| JList (l : list json)
| JObj (kvs : list (string * json)).

(** ** The world *)

(** One entry per call that leaves the program. A bus call is logged when it
    is made, whatever the bus answers. *)
Inductive event :=
| EPrint (s : string)
| EInput (prompt : string)
| ERead (reg motor : string)
| EWrite (reg : string) (value : wvalue) (motor : option string)
| ESleep (seconds : float)
| EDisconnect.

(** What the operator does at a prompt: a line of text, or CTRL+C. *)
Inductive input_event :=
| Line (s : string)
| Ctrl_C.

(** What the bus does with a call: an answer, or an exception. *)
Inductive reply :=
| Reply (v : pyval)
| Raises (e : exn).

Record World := mkWorld {
  motor_bus : bool;              (* [self.motor_bus] is a bus, not [None] *)
  bus : nat -> reply;            (* the outcome of the n-th bus call *)
  clock : nat;                   (* bus calls made so far *)
  files : gmap string json;      (* the documents on disk, by path *)
  disk_error : option exn;       (* what opening a file for writing raises *)
  now : string;                  (* [time.strftime("%Y-%m-%d %H:%M:%S")] *)
  log : list event
}.

Definition emit (ev : event) (w : World) : World :=
  mkWorld (motor_bus w) (bus w) (clock w) (files w) (disk_error w) (now w)
          (log w ++ [ev]).

Definition tick (w : World) : World :=
  mkWorld (motor_bus w) (bus w) (S (clock w)) (files w) (disk_error w) (now w)
          (log w).

Definition store (path : string) (doc : json) (w : World) : World :=
  mkWorld (motor_bus w) (bus w) (clock w) (<[path := doc]> (files w))
          (disk_error w) (now w) (log w).

Definition print (s : string) : World -> World := emit (EPrint s).

(** ** The monad of bus code: state and exceptions *)

Definition M (A : Type) : Type := World -> result A * World.

Definition ret {A} (a : A) : M A := fun w => (Ok a, w).

Definition raise {A} (e : exn) : M A := fun w => (Exc e, w).

Definition bind {A B} (m : M A) (k : A -> M B) : M B :=
  fun w => match m w with
           | (Ok a, w') => k a w'
           | (Exc e, w') => (Exc e, w')
           end.

Definition lift {A} (r : result A) : M A := fun w => (r, w).

Notation "x <- c ;; k" := (bind c (fun x => k))
  (at level 100, c at next level, right associativity).
Notation "c ;;; k" := (bind c (fun _ => k))
  (at level 100, right associativity).

(** A call on [self.motor_bus]: an [AttributeError] when there is no bus,
    otherwise the call is logged and the oracle decides how it ends. *)
Definition bus_call (ev : event) : M pyval := fun w =>
  if motor_bus w then
    let w' := tick (emit ev w) in
    match bus w (clock w) with
    | Reply v => (Ok v, w')
    | Raises e => (Exc e, w')
    end
  else (Exc AttributeError, w).

Definition bus_read (reg motor : string) : M pyval :=
  bus_call (ERead reg motor).

Definition bus_write (reg : string) (value : wvalue) (motor : option string)
  : M unit :=
  _ <- bus_call (EWrite reg value motor) ;; ret tt.

(** ** Text *)

Definition nl : string := String "010"%char EmptyString.

Fixpoint repeat_string (n : nat) (s : string) : string :=
  match n with O => EmptyString | S n' => s ++ repeat_string n' s end.

Fixpoint join (sep : string) (l : list string) : string :=
  match l with
  | [] => EmptyString
  | [s] => s
  | s :: l' => s ++ sep ++ join sep l'
  end.

(** [f"{position:4d}"]: decimal, right-aligned in a field of width 4. *)
Definition format_4d (z : Z) : string :=
  let s := pretty z in
  repeat_string (4 - String.length s) " " ++ s.

Definition is_space (c : ascii) : bool :=
  let n := nat_of_ascii c in
  ((9 <=? n)%nat && (n <=? 13)%nat) || ((28 <=? n)%nat && (n <=? 32)%nat).

Fixpoint lstrip (s : string) : string :=
  match s with
  | String c s' => if is_space c then lstrip s' else s
  | EmptyString => EmptyString
  end.

Fixpoint rstrip (s : string) : string :=
  match s with
  | String c s' =>
      match rstrip s' with
      | EmptyString => if is_space c then EmptyString else String c EmptyString
      | r => String c r
      end
  | EmptyString => EmptyString
  end.

Definition strip (s : string) : string := rstrip (lstrip s).

(** [" | ".join([f"{motor}:{position:4d}" for motor, position in pos.items()])] *)
Definition pos_str (pos : dict Z) : string :=
  join " | " (map (fun mp => fst mp ++ ":" ++ format_4d (snd mp)) pos).

(** ** Floats *)

(** Python's [int] on a float: truncation towards zero, [ValueError] on a
    NaN and [OverflowError] on an infinity. *)
Definition int_of_float (f : float) : result Z :=
  match Prim2SF f with
  | S754_zero _ => Ok 0
  | S754_infinity _ => Exc OverflowError
  | S754_nan => Exc ValueError
  | S754_finite s m e =>
      let v := if (0 <=? e)%Z then Z.pos m * 2 ^ e else Z.pos m / 2 ^ (- e) in
      Ok (if s then - v else v)
  end.

(** ** The sequencer *)

(** [self.motors_config]: joint name, motor identifier, model. *)
Definition motors_config : dict (Z * string) :=
  [ ("shoulder_pan", (1, "sts3215"));
    ("shoulder_lift", (2, "sts3215"));
    ("elbow_flex", (3, "sts3215"));
    ("wrist_flex", (4, "sts3215"));
    ("wrist_roll", (5, "sts3215"));
    ("gripper", (6, "sts3215")) ].

(** One entry of [sequence]: the dictionary with the keys ["position"],
    ["positions"] and ["duration"]. *)
Record Step := mkStep {
  position : Z;
  positions : dict Z;
  duration : float
}.

Definition torque_off : M unit :=
  bus_write "Torque_Enable" (Torque DISABLED) None ;;;
  fun w => (Ok tt, print "Torque OFF - move robot freely" w).

Definition torque_on : M unit :=
  bus_write "Torque_Enable" (Torque ENABLED) None ;;;
  fun w => (Ok tt, print "Torque ON - robot under control" w).

(** [if hasattr(pos, '__len__') and len(pos) == 1: pos = pos[0]] *)
Definition unwrap (pos : pyval) : pyval :=
  match pos with
  | PSeq [z] => PInt z
  | _ => pos
  end.

(** [int(pos)] on what a read returned. *)
Definition py_int (pos : pyval) : result Z :=
  match pos with
  | PInt z => Ok z
  | PSeq _ => Exc TypeError
  end.

(** The loop of [get_positions] over the joints still to read. *)
Fixpoint read_joints (motor_names : list string) (positions : dict Z)
  : M (dict Z) :=
  match motor_names with
  | [] => ret positions
  | motor_name :: rest =>
      pos <- bus_read "Present_Position" motor_name ;;
      z <- lift (py_int (unwrap pos)) ;;
      read_joints rest (dict_set motor_name z positions)
  end.

Definition get_positions : M (dict Z) :=
  read_joints (keys motors_config) [].

(** The [time_ms] of [move_to_position]. *)
Definition time_ms (duration_seconds : float) : result Z :=
  if (duration_seconds =? 0)%float then Ok 800
  else int_of_float (duration_seconds * 1000)%float.

(** The loop of [move_to_position] over [positions.items()]. *)
Fixpoint write_goals (t : Z) (items : dict Z) : M unit :=
  match items with
  | [] => ret tt
  | (motor_name, p) :: rest =>
      bus_write "Goal_Time" (Num t) (Some motor_name) ;;;
      bus_write "Goal_Position" (Num p) (Some motor_name) ;;;
      write_goals t rest
  end.

Definition move_to_position (positions : dict Z) (duration_seconds : float)
  : M unit :=
  t <- lift (time_ms duration_seconds) ;;
  write_goals t positions.

(** *** The sequence file *)

Definition file_path (name : string) : string :=
  "sequences/" ++ name ++ ".json".

Definition positions_to_json (pos : dict Z) : json :=
  JObj (map (fun mp => (fst mp, JInt (snd mp))) pos).

Definition step_to_json (st : Step) : json :=
  JObj [ ("position", JInt (position st));
         ("positions", positions_to_json (positions st));
         ("duration", JFloat (duration st)) ].

(** The [data] dictionary of [record_sequence]. *)
Definition sequence_data (name recorded_at : string) (sequence : list Step)
  : json :=
  JObj [ ("name", JStr name);
         ("recorded_at", JStr recorded_at);
         ("total_positions", JInt (Z.of_nat (length sequence)));
         ("sequence", JList (map step_to_json sequence)) ].

(** [Path("sequences").mkdir(exist_ok=True)] and
    [with open(file_path, 'w') as f: json.dump(data, f, indent=2)]: the file
    is written whole, unless the disk refuses. *)
Definition dump (path : string) (data : json) : M unit := fun w =>
  match disk_error w with
  | Some e => (Exc e, w)
  | None => (Ok tt, store path data w)
  end.

(** [obj[key]] on a loaded document. *)
Definition getitem (obj : json) (key : string) : result json :=
  match obj with
  | JObj kvs =>
      match dict_get key kvs with
      | Some v => Ok v
      | None => Exc KeyError
      end
  | _ => Exc TypeError
  end.

(** The player reads a step through [step["positions"].items()] with the
    format [4d], [step["duration"]] and [step["position"]]. The embedding
    is typed: a step of another shape than the recorder writes is refused
    where the player first touches it, in the listing before playback. *)
Fixpoint load_positions (kvs : list (string * json)) : result (dict Z) :=
  match kvs with
  | [] => Ok []
  | (k, JInt z) :: rest =>
      match load_positions rest with
      | Ok d => Ok ((k, z) :: d)
      | Exc e => Exc e
      end
  | _ => Exc ValueError
  end.

Definition load_step (step : json) : result Step :=
  match getitem step "positions" with
  | Ok (JObj kvs) =>
      match load_positions kvs with
      | Ok pos =>
          match getitem step "duration" with
          | Ok (JFloat d) =>
              match getitem step "position" with
              | Ok (JInt n) => Ok (mkStep n pos d)
              | Ok _ => Exc TypeError
              | Exc e => Exc e
              end
          | Ok _ => Exc TypeError
          | Exc e => Exc e
          end
      | Exc e => Exc e
      end
  | Ok _ => Exc AttributeError
  | Exc e => Exc e
  end.

(** [data["sequence"]], as the list the player iterates over. *)
Definition load_sequence (data : json) : result (list json) :=
  match getitem data "sequence" with
  | Ok (JList l) => Ok l
  | Ok _ => Exc TypeError
  | Exc e => Exc e
  end.

Definition prints (lines : list string) (w : World) : World :=
  fold_left (fun w s => print s w) lines w.

(** [input(prompt)]: the prompt is shown, then the operator answers; a
    closed terminal is an [EOFError]. *)
Definition input (prompt : string) (stdin : list input_event) (w : World)
  : result string * list input_event * World :=
  match stdin with
  | [] => (Exc EOFError, [], emit (EInput prompt) w)
  | Ctrl_C :: rest => (Exc KeyboardInterrupt, rest, emit (EInput prompt) w)
  | Line s :: rest => (Ok s, rest, emit (EInput prompt) w)
  end.

(** How the [try] block of [record_sequence] ends: it has no way out but an
    exception, and leaves [sequence] and [position_num] as they then are. *)
Record stopped := mkStopped {
  raised : exn;
  sequence_at : list Step;
  position_num_at : Z;
  stdin_at : list input_event;
  world_at : World
}.

(** ** Sample worlds

    Concrete inputs on which the definitions are run. *)

(** A few values of Python's [float] and of its printing. *)
Definition sample_float (s : string) : option float :=
  if String.eqb s "0" then Some 0%float
  else if String.eqb s "2.0" then Some 2%float
  else if String.eqb s "-1" then Some (-1)%float
  else if String.eqb s "inf" then Some infinity
  else None.

Definition sample_repr (f : float) : string :=
  if (f =? 1)%float then "1.0"
  else if (f =? 2)%float then "2.0"
  else "?".

(** An arm whose n-th bus call answers with the one-element array [[n]]. *)
Definition healthy_bus (n : nat) : reply := Reply (PSeq [Z.of_nat n]).

(** An arm whose first read fails: the second bus call of a session. *)
Definition failing_bus (n : nat) : reply :=
  match n with
  | 1%nat => Raises OSError
  | _ => Reply (PInt 0)
  end.

(** An arm that answers every read with a two-element array. *)
Definition pair_bus (n : nat) : reply := Reply (PSeq [5; 6]).

(** The operator pressing ENTER at a prompt. *)
Definition enter : input_event := Line EmptyString.

Definition world_of (b : nat -> reply) : World :=
  mkWorld true b 0 ∅ None "2025-01-01 00:00:00" [].

(** The operator confirms the start, records two more positions (2.0 s,
    then fast) after a refused answer, and interrupts. *)
Definition sample_session : list input_event :=
  [ enter; Line " 2.0 "; Line "abc"; Line "0"; Ctrl_C ].

Definition sample_pose : dict Z := [ ("shoulder_pan", 2048); ("gripper", 10) ].

Definition sample_steps : list Step :=
  [ mkStep 1 sample_pose 0; mkStep 2 sample_pose 2; mkStep 3 sample_pose 0 ].

(** A sequencer as [__init__] leaves it: no bus yet. *)
Definition world_without_bus : World :=
  mkWorld false healthy_bus 0 ∅ None "2025-01-01 00:00:00" [].


(** A disk that holds the sample steps under the name "demo". *)
Definition world_with_demo (b : nat -> reply) : World :=
  store (file_path "demo")
        (sequence_data "demo" "2025-01-01 00:00:00" sample_steps)
        (world_of b).

Section Sequencer.

(** Python's [float(text)], [None] for a [ValueError], and the text Python
    prints for a float: the interpreter's own and taken as given. *)
Context (py_float : string -> option float) (py_repr : float -> string).

Definition record_banner (name : string) : list string :=
  [ nl ++ repeat_string 60 "=";
    "RECORDING SEQUENCE: " ++ name;
    repeat_string 60 "=";
    "INSTRUCTIONS:";
    "1. Move robot to STARTING position";
    "2. Press ENTER to record starting position";
    "3. Move to next position";
    "4. Enter seconds to reach position (0=fast, decimals OK)";
    "5. Press ENTER to record position";
    "6. Repeat steps 3-5 for each position";
    "7. Press CTRL+C when done" ].

Definition move_prompt (position_num : Z) : string :=
  nl ++ "Move to position " ++ pretty position_num.

Definition duration_prompt (position_num : Z) : string :=
  "Enter seconds to reach position " ++ pretty position_num ++ " (0=fast): ".

Definition time_desc (duration : float) : string :=
  if (duration =? 0)%float then "FAST" else py_repr duration ++ "s".

Definition recorded_line (position_num : Z) (pos : dict Z) (duration : float)
  : string :=
  "Position " ++ pretty position_num ++ ": " ++ pos_str pos
    ++ " (" ++ time_desc duration ++ ")".

(** The [while True] loop of [record_sequence], one turn per answer at the
    duration prompt (the match on [stdin] is [input], written out). *)
Fixpoint record_loop (stdin : list input_event) (sequence : list Step)
    (position_num : Z) (w : World) : stopped :=
  let w := emit (EInput (duration_prompt position_num))
             (print (move_prompt position_num) w) in
  match stdin with
  | [] => mkStopped EOFError sequence position_num [] w
  | Ctrl_C :: rest => mkStopped KeyboardInterrupt sequence position_num rest w
  | Line duration_input :: rest =>
      match py_float (strip duration_input) with
      | None =>
          record_loop rest sequence position_num (print "Invalid number" w)
      | Some duration =>
          if (duration <? 0)%float then
            record_loop rest sequence position_num
              (print "Duration cannot be negative" w)
          else
            match get_positions w with
            | (Exc e, w) => mkStopped e sequence position_num rest w
            | (Ok pos, w) =>
                record_loop rest
                  (sequence ++ [mkStep position_num pos duration])%list
                  (position_num + 1)
                  (print (recorded_line position_num pos duration) w)
            end
      end
  end.

(** The [try] block: the starting position, then the loop. *)
Definition capture (stdin : list input_event) (w : World) : stopped :=
  match input (nl ++ "Move to STARTING position, press ENTER...") stdin w with
  | (Exc e, rest, w) => mkStopped e [] 1 rest w
  | (Ok _, rest, w) =>
      match get_positions w with
      | (Exc e, w) => mkStopped e [] 1 rest w
      | (Ok pos, w) =>
          record_loop rest [mkStep 1 pos 0] 2
            (print ("START: " ++ pos_str pos) w)
      end
  end.

(** The return to the start, added when more than the start was captured. *)
Definition close_loop (sequence : list Step) (position_num : Z) (w : World)
  : list Step * World :=
  match sequence with
  | first :: _ :: _ =>
      ((sequence ++ [mkStep position_num (positions first) 1])%list,
       print "Added return to START position as final step (1.0s)" w)
  | _ => (sequence, w)
  end.

(** What follows the [try] block: close the loop, save, torque back on. *)
Definition finish (name : string) (sequence : list Step) (position_num : Z)
  : M unit := fun w =>
  let (sequence, w) := close_loop sequence position_num w in
  (dump (file_path name) (sequence_data name (now w) sequence) ;;;
   (fun w => (Ok tt, print ("Saved to: " ++ file_path name) w)) ;;;
   torque_on) w.

(** Up to the [try]: the instructions, then torque off. *)
Definition opening (name : string) : M unit :=
  fun w => torque_off (prints (record_banner name) w).

Definition record_sequence (name : string) (stdin : list input_event)
    (w : World) : result unit * list input_event * World :=
  match opening name w with
  | (Exc e, w) => (Exc e, stdin, w)
  | (Ok _, w) =>
      let s := capture stdin w in
      match raised s with
      | KeyboardInterrupt =>
          let w := print (nl ++ "Recording finished! Captured "
                            ++ pretty (length (sequence_at s)) ++ " positions")
                         (world_at s) in
          let (r, w) := finish name (sequence_at s) (position_num_at s) w in
          (r, stdin_at s, w)
      | e => (Exc e, stdin_at s, world_at s)
      end
  end.

(** *** Playback *)

(** [time.sleep(seconds)]: the call is logged with its argument. *)
Definition sleep (seconds : float) : M unit :=
  fun w => (Ok tt, emit (ESleep seconds) w).

Definition say (s : string) : M unit := fun w => (Ok tt, print s w).

(** [try: ... except: pass] *)
Definition swallow (m : M unit) : M unit :=
  fun w => (Ok tt, snd (m w)).

(** The loop that lifts the travel limits, joint by joint. *)
Fixpoint remove_limits (motor_names : list string) : M unit :=
  match motor_names with
  | [] => ret tt
  | motor_name :: rest =>
      swallow (bus_write "Min_Angle_Limit" (Num 0) (Some motor_name) ;;;
               bus_write "Max_Angle_Limit" (Num 4095) (Some motor_name)) ;;;
      remove_limits rest
  end.

Definition listed_desc (st : Step) : string :=
  if (duration st =? 0)%float && (position st =? 1)%Z then "START"
  else if (duration st =? 0)%float then "FAST"
  else py_repr (duration st) ++ "s".

Definition listed_line (st : Step) : string :=
  "   " ++ pretty (position st) ++ ". " ++ pos_str (positions st)
    ++ " (" ++ listed_desc st ++ ")".

(** The listing shown before playback, step by step. *)
Fixpoint list_steps (sequence : list json) : M (list Step) :=
  match sequence with
  | [] => ret []
  | step :: rest =>
      st <- lift (load_step step) ;;
      say (listed_line st) ;;;
      sts <- list_steps rest ;;
      ret (st :: sts)
  end.

(** The body of the playback loop. *)
Definition play_step (step : Step) : M unit :=
  let pos := positions step in
  let duration := duration step in
  let position_num := position step in
  if (position_num =? 1)%Z then
    say ("Position " ++ pretty position_num ++ ": " ++ pos_str pos
           ++ " (moving to start)") ;;;
    move_to_position pos 0 ;;;
    sleep 1.2
  else if (duration =? 0)%float then
    say ("Position " ++ pretty position_num ++ ": " ++ pos_str pos
           ++ " (FAST)") ;;;
    move_to_position pos 0 ;;;
    sleep 1.0
  else
    say ("Position " ++ pretty position_num ++ ": " ++ pos_str pos
           ++ " (" ++ py_repr duration ++ "s)") ;;;
    move_to_position pos duration ;;;
    sleep (duration * 4.0 + 1.0).

Fixpoint play_steps (sequence : list Step) : M unit :=
  match sequence with
  | [] => ret tt
  | step :: rest => play_step step ;;; play_steps rest
  end.

(** [try: ... except KeyboardInterrupt: print(...)] *)
Definition on_interrupt (m : M unit) (handler : M unit) : M unit :=
  fun w => match m w with
           | (Exc KeyboardInterrupt, w') => handler w'
           | r => r
           end.

(** From [json.load] to the listing: the steps the player will run. *)
Definition open_sequence (name : string) (data : json) : M (list Step) :=
  sequence <- lift (load_sequence data) ;;
  (fun w => (Ok tt, prints [ nl ++ repeat_string 60 "=";
                             "PLAYING SEQUENCE: " ++ name;
                             repeat_string 60 "=";
                             "Positions: " ++ pretty (length sequence) ] w)) ;;;
  list_steps sequence.

(** From [self.torque_on()] to the end of [play_sequence]. *)
Definition playback (steps : list Step) : M unit :=
  torque_on ;;;
  say "Ensuring limits are removed for playback..." ;;;
  remove_limits (keys motors_config) ;;;
  say (nl ++ "EXECUTING...") ;;;
  say (repeat_string 50 "=") ;;;
  on_interrupt (play_steps steps ;;; say (nl ++ "SEQUENCE COMPLETE!"))
               (say (nl ++ "PLAYBACK STOPPED")).

Definition play_sequence (name : string) (stdin : list input_event)
    (w : World) : result unit * list input_event * World :=
  match files w !! file_path name with
  | None =>
      (Ok tt, stdin, print ("Sequence file not found: " ++ file_path name) w)
  | Some data =>
      match open_sequence name data w with
      | (Exc e, w) => (Exc e, stdin, w)
      | (Ok steps, w) =>
          match input (nl ++ "Press ENTER to start playback...") stdin w with
          | (Exc e, stdin, w) => (Exc e, stdin, w)
          | (Ok _, stdin, w) =>
              let (r, w) := playback steps w in (r, stdin, w)
          end
      end
  end.

(** *** The command line *)

Inductive Mode := record | play.

(** [connect] stops at its second line: [FeetechMotorsBusConfig] is not
    bound (its import is commented out), so the bus is never created. *)
Definition connect (port : string) : M unit :=
  say ("Connecting to robot on " ++ port ++ "...") ;;;
  raise NameError.

Definition disconnect : M unit := fun w =>
  if motor_bus w then
    (bus_call EDisconnect ;;; say "Disconnected") w
  else (Ok tt, w).

(** The [try / except Exception / finally] of [main] around a body, with
    the exit status; an exception that is no [Exception], and one raised by
    the cleanup itself, leave [main]. *)
Definition guarded
    (body : list input_event -> World -> result unit * list input_event * World)
    (stdin : list input_event) (w : World)
  : result Z * list input_event * World :=
  match body stdin w with
  | (Ok _, stdin, w) =>
      match disconnect w with
      | (Ok _, w) => (Ok 0, stdin, w)
      | (Exc e, w) => (Exc e, stdin, w)
      end
  | (Exc e, stdin, w) =>
      if is_Exception e then
        match disconnect (print ("ERROR: " ++ exn_name e) w) with
        | (Ok _, w) => (Ok 1, stdin, w)
        | (Exc e', w) => (Exc e', stdin, w)
        end
      else
        match disconnect w with
        | (Ok _, w) => (Exc e, stdin, w)
        | (Exc e', w) => (Exc e', stdin, w)
        end
  end.

Definition dispatch (mode : Mode) (name : string)
  : list input_event -> World -> result unit * list input_event * World :=
  match mode with
  | record => record_sequence name
  | play => play_sequence name
  end.

Definition main (mode : Mode) (name port : string)
  : list input_event -> World -> result Z * list input_event * World :=
  guarded (fun stdin w =>
             match connect port w with
             | (Ok _, w) => dispatch mode name stdin w
             | (Exc e, w) => (Exc e, stdin, w)
             end).

(** ** Reading the log *)

(** [w'] is [w] some calls later: the same bus, the same disk behaviour and
    the same time of day, and a log that has grown by [l]. *)
Definition later (w w' : World) (l : list event) : Prop :=
  motor_bus w' = motor_bus w /\ bus w' = bus w /\
  disk_error w' = disk_error w /\ now w' = now w /\
  log w' = (log w ++ l)%list.

(** The bus calls [move_to_position] is meant to make, in order. *)
Definition goal_writes (t : Z) (items : dict Z) : list event :=
  flat_map (fun mp => [ EWrite "Goal_Time" (Num t) (Some (fst mp));
                        EWrite "Goal_Position" (Num (snd mp)) (Some (fst mp)) ])
           items.

(** The arguments of the [time.sleep] calls of a log, in order. *)
Fixpoint sleeps (l : list event) : list float :=
  match l with
  | [] => []
  | ESleep s :: l' => s :: sleeps l'
  | _ :: l' => sleeps l'
  end.

(** The modes written to [Torque_Enable] in a log, in order. *)
Fixpoint torque_writes (l : list event) : list TorqueMode :=
  match l with
  | [] => []
  | EWrite _ (Torque m) _ :: l' => m :: torque_writes l'
  | _ :: l' => torque_writes l'
  end.

(** The answers of the bus to its next [n] calls. *)
Definition answers (w : World) (n : nat) : list reply :=
  map (fun i => bus w (clock w + i)%nat) (seq 0 n).

(** The integers [lo], [lo + 1], ... ([n] of them). *)
Fixpoint count_from (lo : Z) (n : nat) : list Z :=
  match n with
  | O => []
  | S n' => lo :: count_from (lo + 1) n'
  end.

(** A read that is an integer, or an array holding one integer. *)
Definition holds (v : pyval) (z : Z) : Prop := v = PInt z \/ v = PSeq [z].

(** The keys of a dictionary after [d[k] = v]. *)
Definition add_key (ks : list string) (k : string) : list string :=
  if existsb (String.eqb k) ks then ks else (ks ++ [k])%list.

(** The world once the duration prompt of a turn has been shown. *)
Definition prompted (position_num : Z) (w : World) : World :=
  emit (EInput (duration_prompt position_num))
       (print (move_prompt position_num) w).

(** What holds of a step captured from the arm. *)
Definition well_keyed (st : Step) : Prop :=
  keys (positions st) = keys motors_config.

(** The list a session would save, from what its [try] block left. *)
Definition closed (s : stopped) : list Step :=
  match sequence_at s with
  | first :: _ :: _ =>
      (sequence_at s ++ [mkStep (position_num_at s) (positions first) 1])%list
  | _ => sequence_at s
  end.

(** The lines shown when a saved sequence is opened. *)
Definition listing (name : string) (sequence : list Step) : list string :=
  [ nl ++ repeat_string 60 "=";
    "PLAYING SEQUENCE: " ++ name;
    repeat_string 60 "=";
    "Positions: " ++ pretty (length sequence) ] ++ map listed_line sequence.

(** The waits the specification gives to the steps after the first. *)
Definition waits_as_timed (st : Step) (s : float) : Prop :=
  position st <> 1 ->
  ((0 <? duration st)%float = true -> s = (duration st * 4 + 1)%float) /\
  ((duration st =? 0)%float = true -> s = 1%float).

(** A bus that answers every call. *)
Definition responsive (w : World) : Prop :=
  forall n, exists v, bus w n = Reply v.

(** A bus that answers every call with an integer or an array of one. *)
Definition answering (w : World) : Prop :=
  forall n, exists v z, bus w n = Reply v /\ holds v z.

(** What the duration prompt keeps of an answer: the number typed, unless
    [float] refuses it or it is below zero. *)
Definition accepted (text : string) : option float :=
  match py_float (strip text) with
  | Some d => if (d <? 0)%float then None else Some d
  | None => None
  end.



(** The joints for which a log writes the register [reg], in order. *)
Fixpoint written (reg : string) (l : list event) : list string :=
  match l with
  | [] => []
  | EWrite reg' _ (Some m) :: l' =>
      if String.eqb reg' reg then m :: written reg l' else written reg l'
  | _ :: l' => written reg l'
  end.

(** Bus code that leaves the disk as it finds it. *)
Definition keeps_files {A} (m : M A) : Prop :=
  forall w r w', m w = (r, w') -> files w' = files w.

(** An entry of the log that is shown to the operator: a print or the
    prompt of an [input]. *)
Definition shown (ev : event) : Prop :=
  exists s, ev = EPrint s \/ ev = EInput s.

(** The two writes that lift the travel limits of a joint. *)
Definition lifting (ev : event) : Prop :=
  exists m, ev = EWrite "Min_Angle_Limit" (Num 0) (Some m) \/
            ev = EWrite "Max_Angle_Limit" (Num 4095) (Some m).

(** What the playback loop leaves in the log: prints, goal writes, sleeps. *)
Definition moving (ev : event) : Prop :=
  (exists s, ev = EPrint s) \/ (exists s, ev = ESleep s) \/
  (exists t m, ev = EWrite "Goal_Time" (Num t) (Some m)) \/
  (exists p m, ev = EWrite "Goal_Position" (Num p) (Some m)).


(** ** Floats: comparisons with zero *)

Lemma positive_not_zero (d : float) :
  (0 <? d)%float = true -> (d =? 0)%float = false.
Proof.
  rewrite ltb_spec, FloatAxioms.eqb_spec.
  change (Prim2SF 0) with (S754_zero false).
  unfold SFltb, SFeqb.
  destruct (Prim2SF d) as [s | s | | s m e]; simpl; try discriminate;
    destruct s; discriminate || reflexivity.
Qed.

(** ** The log only grows *)

Lemma later_refl w : later w w [].
Proof. unfold later. rewrite app_nil_r. tauto. Qed.

Lemma later_trans w1 w2 w3 l1 l2 :
  later w1 w2 l1 -> later w2 w3 l2 -> later w1 w3 (l1 ++ l2).
Proof.
  unfold later. intros (-> & -> & -> & -> & E1) (-> & -> & -> & -> & E2).
  rewrite E2, E1, app_assoc. tauto.
Qed.

Lemma later_emit w ev : later w (emit ev w) [ev].
Proof. unfold later. simpl. tauto. Qed.

Lemma later_print w s : later w (print s w) [EPrint s].
Proof. apply later_emit. Qed.

Lemma later_prints lines w : later w (prints lines w) (map EPrint lines).
Proof.
  unfold prints. revert w. induction lines as [|s lines IH]; intros w; simpl.
  - apply later_refl.
  - change (EPrint s :: map EPrint lines)
      with ([EPrint s] ++ map EPrint lines)%list.
    eapply later_trans; [apply later_print | apply IH].
Qed.

Lemma torque_writes_app l1 l2 :
  torque_writes (l1 ++ l2) = (torque_writes l1 ++ torque_writes l2)%list.
Proof.
  induction l1 as [|ev l1 IH]; simpl; [reflexivity|].
  destruct ev as [| | |reg [z|m] mo| |]; simpl; rewrite ?IH; reflexivity.
Qed.

Lemma sleeps_app l1 l2 : sleeps (l1 ++ l2) = (sleeps l1 ++ sleeps l2)%list.
Proof.
  induction l1 as [|ev l1 IH]; simpl; [reflexivity|].
  destruct ev; simpl; rewrite ?IH; reflexivity.
Qed.

Lemma torque_writes_prints lines : torque_writes (map EPrint lines) = [].
Proof. induction lines; simpl; auto. Qed.

(** A bus call either is refused for want of a bus, or is logged and takes
    one answer from the oracle. *)
Lemma bus_call_cases ev w :
  (motor_bus w = false /\ bus_call ev w = (Exc AttributeError, w)) \/
  (motor_bus w = true /\
   exists w', later w w' [ev] /\ clock w' = S (clock w) /\ files w' = files w /\
     match bus w (clock w) with
     | Reply v => bus_call ev w = (Ok v, w')
     | Raises e => bus_call ev w = (Exc e, w')
     end).
Proof.
  unfold bus_call. destruct (motor_bus w) eqn:Hb; [right | left; auto].
  split; [reflexivity|]. exists (tick (emit ev w)).
  split; [|split; [reflexivity|split; [reflexivity|]]].
  - unfold later. simpl. tauto.
  - destruct (bus w (clock w)); reflexivity.
Qed.

Lemma bus_write_cases reg v mo w :
  exists w', snd (bus_write reg v mo w) = w' /\
    ((motor_bus w = false /\ w' = w /\
      fst (bus_write reg v mo w) = Exc AttributeError) \/
     (later w w' [EWrite reg v mo] /\ clock w' = S (clock w) /\
      files w' = files w /\ motor_bus w = true /\
      match bus w (clock w) with
      | Reply _ => fst (bus_write reg v mo w) = Ok tt
      | Raises e => fst (bus_write reg v mo w) = Exc e
      end)).
Proof.
  unfold bus_write, bind.
  destruct (bus_call_cases (EWrite reg v mo) w)
    as [[Hb E] | [Hb (w' & L & C & F & E)]].
  - rewrite E. exists w. simpl. auto.
  - exists w'. destruct (bus w (clock w)); rewrite E; simpl; split; auto;
      right; auto.
Qed.

(** ** [move_to_position] *)

Lemma write_goals_trace t items w r w' :
  write_goals t items w = (r, w') ->
  exists n, later w w' (take n (goal_writes t items)) /\
    (r = Ok tt -> later w w' (goal_writes t items)).
Proof.
  revert w. induction items as [|[m p] rest IH]; intros w; simpl.
  - intros [= <- <-]. exists 0%nat. split; [|intros _]; apply later_refl.
  - unfold bind at 1.
    destruct (bus_write_cases "Goal_Time" (Num t) (Some m) w)
      as (w1 & S1 & C1).
    destruct (bus_write "Goal_Time" (Num t) (Some m) w) as [[[]|e] w1'] eqn:E1;
      simpl in S1, C1; subst w1'.
    2:{ intros [= <- <-]. destruct C1 as [(_ & -> & _) | (L1 & _)].
        - exists 0%nat. split; [apply later_refl | discriminate].
        - exists 1%nat. split; [exact L1 | discriminate]. }
    destruct C1 as [(_ & _ & C1) | (L1 & _)]; [discriminate|].
    unfold bind at 1.
    destruct (bus_write_cases "Goal_Position" (Num p) (Some m) w1)
      as (w2 & S2 & C2).
    destruct (bus_write "Goal_Position" (Num p) (Some m) w1)
      as [[[]|e] w2'] eqn:E2; simpl in S2, C2; subst w2'.
    2:{ intros [= <- <-]. destruct C2 as [(_ & -> & _) | (L2 & _)].
        - exists 1%nat. split; [exact L1 | discriminate].
        - exists 2%nat. split; [|discriminate].
          apply (later_trans _ _ _ _ _ L1 L2). }
    destruct C2 as [(_ & _ & C2) | (L2 & _)]; [discriminate|].
    intros Hrest. destruct (IH _ Hrest) as (n & Ln & Lfull).
    pose proof (later_trans _ _ _ _ _ L1 L2) as L12.
    exists (S (S n)). split.
    + apply (later_trans _ _ _ _ _ L12 Ln).
    + intros Hr. apply (later_trans _ _ _ _ _ L12 (Lfull Hr)).
Qed.

(** In the intended order, a joint's [Goal_Position] write comes right after
    its [Goal_Time] write. *)
Lemma goal_writes_order t items i p m :
  goal_writes t items !! i = Some (EWrite "Goal_Position" (Num p) (Some m)) ->
  exists j, i = S j /\
    goal_writes t items !! j = Some (EWrite "Goal_Time" (Num t) (Some m)).
Proof.
  revert i. induction items as [|[m' p'] rest IH]; intros i; simpl.
  - destruct i; discriminate.
  - destruct i as [|[|i]]; simpl.
    + discriminate.
    + intros [= -> ->]. exists 0%nat. auto.
    + intros H. destruct (IH _ H) as (j & -> & Hj).
      exists (S (S j)). auto.
Qed.

Lemma move_to_position_trace pos d w r w' :
  move_to_position pos d w = (r, w') ->
  match time_ms d with
  | Ok t =>
      exists n, later w w' (take n (goal_writes t pos)) /\
        (r = Ok tt -> later w w' (goal_writes t pos))
  | Exc e => r = Exc e /\ w' = w
  end.
Proof.
  unfold move_to_position, bind, lift.
  destruct (time_ms d) as [t|e].
  - apply write_goals_trace.
  - intros [= <- <-]. auto.
Qed.

(** With a bus that answers, every write is made. *)
Lemma write_goals_healthy t items w :
  motor_bus w = true ->
  (forall i, (i < 2 * length items)%nat ->
             exists v, bus w (clock w + i)%nat = Reply v) ->
  exists w', write_goals t items w = (Ok tt, w') /\
    later w w' (goal_writes t items) /\
    clock w' = (clock w + 2 * length items)%nat /\ files w' = files w.
Proof.
  revert w. induction items as [|[m p] rest IH]; intros w Hb Hok; simpl.
  - exists w. rewrite Nat.add_0_r. auto using later_refl.
  - unfold bind at 1.
    destruct (bus_write_cases "Goal_Time" (Num t) (Some m) w)
      as (w1 & S1 & [(C1 & _) | (L1 & K1 & F1 & _ & C1)]); [congruence|].
    destruct (Hok 0%nat) as (v0 & Hv0); [simpl; lia|].
    rewrite Nat.add_0_r in Hv0. rewrite Hv0 in C1.
    destruct (bus_write "Goal_Time" (Num t) (Some m) w) as [r1 w1'] eqn:E1.
    simpl in S1, C1. subst w1' r1.
    pose proof L1 as (Hb1 & Hbus1 & _).
    unfold bind at 1.
    destruct (bus_write_cases "Goal_Position" (Num p) (Some m) w1)
      as (w2 & S2 & [(C2 & _) | (L2 & K2 & F2 & _ & C2)]); [congruence|].
    destruct (Hok 1%nat) as (v1 & Hv1); [simpl; lia|].
    rewrite Hbus1, K1, <- Nat.add_1_r, Hv1 in C2.
    destruct (bus_write "Goal_Position" (Num p) (Some m) w1)
      as [r2 w2'] eqn:E2.
    simpl in S2, C2. subst w2' r2.
    pose proof L2 as (Hb2 & Hbus2 & _).
    destruct (IH w2) as (w' & E & L & K & F).
    { congruence. }
    { intros i Hi. rewrite Hbus2, Hbus1, K2, K1.
      destruct (Hok (S (S i))) as (v & Hv); [simpl; lia|].
      exists v. rewrite <- Hv. f_equal. lia. }
    exists w'. split; [exact E|]. split; [|split].
    + apply (later_trans _ _ _ _ _ (later_trans _ _ _ _ _ L1 L2) L).
    + rewrite K, K2, K1. simpl. lia.
    + congruence.
Qed.

Lemma later_inj w w' l1 l2 : later w w' l1 -> later w w' l2 -> l1 = l2.
Proof.
  intros (_ & _ & _ & _ & E1) (_ & _ & _ & _ & E2).
  rewrite E1 in E2. exact (app_inv_head _ _ _ E2).
Qed.

(** C9: in every call of [move_to_position] the bus calls made are an
    initial part of the intended ones, in which each joint's [Goal_Time]
    write comes before its [Goal_Position] write; the time written is 800
    when the duration is 0 and [int(duration * 1000)] when it is positive;
    and on a bus that answers, the writes of every joint are made. *)
Theorem move_to_position_goal_time_first pos d w r w' :
  move_to_position pos d w = (r, w') ->
  ((d =? 0)%float = true -> time_ms d = Ok 800) /\
  ((0 <? d)%float = true -> time_ms d = int_of_float (d * 1000)%float) /\
  forall t, time_ms d = Ok t ->
    exists new, later w w' new /\
      (exists n, new = take n (goal_writes t pos)) /\
      (forall i p m,
          new !! i = Some (EWrite "Goal_Position" (Num p) (Some m)) ->
          exists j, (j < i)%nat /\
            new !! j = Some (EWrite "Goal_Time" (Num t) (Some m))) /\
      (r = Ok tt -> new = goal_writes t pos) /\
      (motor_bus w = true ->
       (forall i, (i < 2 * length pos)%nat ->
                  exists v, bus w (clock w + i)%nat = Reply v) ->
       r = Ok tt).
Proof.
  clear py_float py_repr. intros Hrun. split; [|split].
  - unfold time_ms. intros ->. reflexivity.
  - unfold time_ms. intros Hd. rewrite (positive_not_zero _ Hd). reflexivity.
  - intros t Ht. pose proof (move_to_position_trace _ _ _ _ _ Hrun) as Htr.
    rewrite Ht in Htr. destruct Htr as (n & Ln & Lfull).
    exists (take n (goal_writes t pos)). split; [exact Ln|].
    split; [eauto|]. split; [|split].
    + intros i p m Hi.
      assert (Hfull : goal_writes t pos !! i
                      = Some (EWrite "Goal_Position" (Num p) (Some m))).
      { rewrite lookup_take_Some in Hi. tauto. }
      destruct (goal_writes_order _ _ _ _ _ Hfull) as (j & -> & Hj).
      exists j. split; [lia|].
      rewrite lookup_take_Some in Hi. rewrite lookup_take_Some.
      split; [exact Hj | lia].
    + intros Hr. exact (later_inj _ _ _ _ Ln (Lfull Hr)).
    + intros Hb Hok. unfold move_to_position, bind, lift in Hrun.
      rewrite Ht in Hrun.
      destruct (write_goals_healthy t pos w Hb Hok) as (w2 & E & _).
      rewrite E in Hrun. congruence.
Qed.

(** ** [get_positions] *)

Lemma answers_S w w' n :
  bus w' = bus w -> clock w' = S (clock w) ->
  answers w (S n) = bus w (clock w) :: answers w' n.
Proof.
  intros Hbus Hclock. unfold answers. rewrite Hbus, Hclock.
  simpl. rewrite Nat.add_0_r. f_equal.
  rewrite <- seq_shift, map_map. apply map_ext. intros i. f_equal. lia.
Qed.

Lemma read_joints_values names acc w vs zs :
  motor_bus w = true ->
  answers w (length names) = map Reply vs ->
  Forall2 holds vs zs ->
  exists w',
    read_joints names acc w
    = (Ok (fold_left (fun d kz => dict_set (fst kz) (snd kz) d)
                     (zip names zs) acc), w') /\
    later w w' (map (ERead "Present_Position") names).
Proof.
  revert acc w vs zs.
  induction names as [|name names IH]; intros acc w vs zs Hb Hans Hvs.
  - exists w. simpl. split; [reflexivity | apply later_refl].
  - destruct (bus_call_cases (ERead "Present_Position" name) w)
      as [[Hb' _] | [_ (w1 & L1 & K1 & _ & E1)]]; [congruence|].
    pose proof L1 as (Hb1 & Hbus1 & _).
    simpl length in Hans. rewrite (answers_S w w1) in Hans by assumption.
    destruct vs as [|v vs]; [discriminate|]. simpl in Hans.
    injection Hans as Hv Hans. rewrite Hv in E1.
    inversion Hvs as [|v' z vs' zs' Hvz Hrest]; subst.
    destruct (IH (dict_set name z acc) w1 vs zs') as (w' & E & L);
      [congruence | exact Hans | exact Hrest |].
    exists w'. split.
    + cbn [read_joints]. unfold bind at 1, bus_read. rewrite E1.
      unfold bind at 1, lift.
      assert (Hz : py_int (unwrap v) = Ok z).
      { destruct Hvz as [-> | ->]; reflexivity. }
      rewrite Hz. exact E.
    + change (map (ERead "Present_Position") (name :: names))
        with ([ERead "Present_Position" name]
                ++ map (ERead "Present_Position") names)%list.
      exact (later_trans _ _ _ _ _ L1 L).
Qed.

(** C7, as the code has it: [get_positions] reads the present-position
    register of every configured joint, in order; when each read is an
    integer or an array of one integer, it returns the mapping from every
    joint name to that integer. *)
Theorem get_positions_reads_every_joint w vs zs :
  motor_bus w = true ->
  answers w (length motors_config) = map Reply vs ->
  Forall2 holds vs zs ->
  exists w',
    get_positions w = (Ok (zip (keys motors_config) zs), w') /\
    later w w' (map (ERead "Present_Position") (keys motors_config)).
Proof.
  intros Hb Hans Hvs.
  destruct (read_joints_values (keys motors_config) [] w vs zs Hb)
    as (w' & E & L); [exact Hans | exact Hvs |].
  exists w'. split; [|exact L].
  unfold get_positions. rewrite E. f_equal. f_equal.
  assert (Hlen : length zs = 6%nat).
  { rewrite <- (Forall2_length _ _ _ Hvs).
    apply (f_equal length) in Hans.
    rewrite length_map in Hans. unfold answers in Hans.
    rewrite length_map, length_seq in Hans. symmetry. exact Hans. }
  destruct zs as [|z1 [|z2 [|z3 [|z4 [|z5 [|z6 [|z7 zs]]]]]]];
    try discriminate.
  reflexivity.
Qed.

(** Whatever the bus answers, [get_positions] only reads, and a mapping it
    returns has the configured joints as its keys, in their order. *)
Lemma keys_dict_set {V} k (v : V) d :
  keys (dict_set k v d)
  = if existsb (String.eqb k) (keys d) then keys d else (keys d ++ [k])%list.
Proof.
  unfold keys. induction d as [|[k' v'] d IH]; simpl; [reflexivity|].
  rewrite (String.eqb_sym k k').
  destruct (String.eqb k' k) eqn:E; simpl.
  - apply String.eqb_eq in E. subst. reflexivity.
  - rewrite IH.
    destruct (existsb (String.eqb k) (map fst d)); reflexivity.
Qed.

Lemma read_joints_only_reads names acc w r w' :
  read_joints names acc w = (r, w') ->
  (exists l, later w w' l /\ torque_writes l = [] /\ sleeps l = [])
  /\ files w' = files w
  /\ forall d, r = Ok d -> keys d = fold_left add_key names (keys acc).
Proof.
  revert acc w. induction names as [|name names IH]; intros acc w; simpl.
  - intros [= <- <-]. split; [|split].
    + exists []. auto using later_refl.
    + reflexivity.
    + intros d [= <-]. reflexivity.
  - unfold bind at 1, bus_read.
    destruct (bus_call_cases (ERead "Present_Position" name) w)
      as [[_ E1] | [_ (w1 & L1 & _ & F1 & E1)]].
    { rewrite E1. intros [= <- <-]. split; [|split].
      - exists []. auto using later_refl.
      - reflexivity.
      - discriminate. }
    destruct (bus w (clock w)) as [v|e]; rewrite E1.
    2:{ intros [= <- <-]. split; [|split].
        - exists [ERead "Present_Position" name]. auto.
        - exact F1.
        - discriminate. }
    unfold bind at 1, lift.
    destruct (py_int (unwrap v)) as [z|e].
    2:{ intros [= <- <-]. split; [|split].
        - exists [ERead "Present_Position" name]. auto.
        - exact F1.
        - discriminate. }
    intros Hrest. destruct (IH _ _ Hrest) as ((l & L & T & S) & F & K).
    split; [|split].
    + exists ([ERead "Present_Position" name] ++ l)%list.
      split; [exact (later_trans _ _ _ _ _ L1 L)|].
      simpl. auto.
    + congruence.
    + intros d Hd. rewrite (K d Hd), keys_dict_set. reflexivity.
Qed.

Lemma get_positions_only_reads w r w' :
  get_positions w = (r, w') ->
  (exists l, later w w' l /\ torque_writes l = [] /\ sleeps l = [])
  /\ files w' = files w
  /\ forall d, r = Ok d -> keys d = keys motors_config.
Proof.
  intros H. destruct (read_joints_only_reads _ _ _ _ _ H) as (L & F & K).
  split; [exact L | split; [exact F|]].
  intros d Hd. rewrite (K d Hd). reflexivity.
Qed.

(** ** The recorder *)

Lemma later_prompted n w :
  later w (prompted n w)
        [EPrint (move_prompt n); EInput (duration_prompt n)].
Proof. unfold later, prompted. simpl. rewrite <- app_assoc. tauto. Qed.

(** The loop from its first prompt on: it makes no torque write and leaves
    the disk alone; it only appends steps, each with the configured joints
    as keys, numbered from [position_num] on, and ends with [position_num]
    one past the last of them. *)
Lemma record_loop_inv stdin sequence n w :
  exists more l,
    later (prompted n w) (world_at (record_loop stdin sequence n w)) l /\
    torque_writes l = [] /\
    files (world_at (record_loop stdin sequence n w)) = files w /\
    sequence_at (record_loop stdin sequence n w) = (sequence ++ more)%list /\
    Forall well_keyed more /\
    map position more = count_from n (length more) /\
    position_num_at (record_loop stdin sequence n w)
    = n + Z.of_nat (length more).
Proof.
  revert sequence n w. induction stdin as [|[text|] rest IH];
    intros sequence n w; cbn [record_loop]; fold (prompted n w).
  - exists [], []. simpl. rewrite app_nil_r, Z.add_0_r.
    auto 10 using later_refl.
  - assert (Hsame : forall msg,
               exists more l,
                 later (prompted n w)
                   (world_at (record_loop rest sequence n
                                (print msg (prompted n w)))) l /\
                 torque_writes l = [] /\
                 files (world_at (record_loop rest sequence n
                                    (print msg (prompted n w)))) = files w /\
                 sequence_at (record_loop rest sequence n
                                (print msg (prompted n w)))
                 = (sequence ++ more)%list /\
                 Forall well_keyed more /\
                 map position more = count_from n (length more) /\
                 position_num_at (record_loop rest sequence n
                                    (print msg (prompted n w)))
                 = n + Z.of_nat (length more)).
    { intros msg.
      destruct (IH sequence n (print msg (prompted n w)))
        as (more & l & L & T & F & S & K & P & N).
      exists more,
        ([EPrint msg]
           ++ [EPrint (move_prompt n); EInput (duration_prompt n)] ++ l)%list.
      split; [|split; [|auto]].
      - eapply later_trans; [apply later_print|].
        eapply later_trans; [apply later_prompted | exact L].
      - simpl. exact T. }
    destruct (py_float (strip text)) as [d|]; [|apply Hsame].
    destruct (d <? 0)%float; [apply Hsame|].
    destruct (get_positions (prompted n w)) as [[pos|e] w1] eqn:G;
      destruct (get_positions_only_reads _ _ _ G)
        as ((l1 & L1 & T1 & _) & F1 & K1).
    + destruct (IH (sequence ++ [mkStep n pos d])%list (n + 1)
                   (print (recorded_line n pos d) w1))
        as (more & l & L & T & F & S & K & P & N).
      exists (mkStep n pos d :: more),
        (l1 ++ [EPrint (recorded_line n pos d)]
            ++ [EPrint (move_prompt (n + 1)); EInput (duration_prompt (n + 1))]
            ++ l)%list.
      split; [|split; [|split; [|split; [|split; [|split]]]]].
      * eapply later_trans; [exact L1|].
        eapply later_trans; [apply later_print|].
        eapply later_trans; [apply later_prompted | exact L].
      * rewrite torque_writes_app, T1. simpl. exact T.
      * rewrite F. simpl. exact F1.
      * rewrite S, <- app_assoc. reflexivity.
      * constructor; [exact (K1 pos eq_refl) | exact K].
      * simpl. rewrite P. reflexivity.
      * rewrite N. simpl length. lia.
    + exists [], l1. simpl. rewrite app_nil_r, Z.add_0_r. auto 10.
  - exists [], []. simpl. rewrite app_nil_r, Z.add_0_r.
    auto 10 using later_refl.
Qed.

(** Every turn of the loop starts by prompting for the position it is at. *)
Lemma record_loop_prompts stdin sequence n w :
  exists l, later w (world_at (record_loop stdin sequence n w))
                  ([EPrint (move_prompt n); EInput (duration_prompt n)] ++ l).
Proof.
  destruct (record_loop_inv stdin sequence n w) as (more & l & L & _).
  exists l. eapply later_trans; [apply later_prompted | exact L].
Qed.

(** C5: an answer at the duration prompt that is not a number, or is a
    negative one, is reported and the loop takes its next turn in the same
    state: the same sequence, the same position number, nothing read from
    or written to the bus or the disk; that turn prompts again for the same
    position. *)
Theorem invalid_duration_changes_nothing text rest sequence position_num w :
  py_float (strip text) = None \/
  (exists d, py_float (strip text) = Some d /\ (d <? 0)%float = true) ->
  let msg := match py_float (strip text) with
             | None => "Invalid number"
             | Some _ => "Duration cannot be negative"
             end in
  let w1 := print msg (prompted position_num w) in
  record_loop (Line text :: rest) sequence position_num w
  = record_loop rest sequence position_num w1 /\
  later w w1 [ EPrint (move_prompt position_num);
               EInput (duration_prompt position_num);
               EPrint msg ] /\
  clock w1 = clock w /\ files w1 = files w /\
  exists l,
    later w1 (world_at (record_loop rest sequence position_num w1))
          ([ EPrint (move_prompt position_num);
             EInput (duration_prompt position_num) ] ++ l).
Proof.
  intros Hbad msg w1. split; [|split; [|split; [|split]]].
  - cbn [record_loop]. fold (prompted position_num w). subst w1 msg.
    destruct Hbad as [-> | (d & -> & ->)]; reflexivity.
  - subst w1. unfold later, prompted. simpl.
    rewrite <- !app_assoc. simpl. tauto.
  - reflexivity.
  - reflexivity.
  - apply record_loop_prompts.
Qed.

(** The same for the whole [try] block. *)
Lemma capture_inv stdin w :
  exists l,
    later w (world_at (capture stdin w)) l /\
    torque_writes l = [] /\
    files (world_at (capture stdin w)) = files w /\
    Forall well_keyed (sequence_at (capture stdin w)) /\
    map position (sequence_at (capture stdin w))
    = count_from 1 (length (sequence_at (capture stdin w))) /\
    position_num_at (capture stdin w)
    = 1 + Z.of_nat (length (sequence_at (capture stdin w))).
Proof.
  unfold capture, input.
  set (p := nl ++ "Move to STARTING position, press ENTER...").
  destruct stdin as [|[text|] rest]; simpl.
  - exists [EInput p]. auto 10 using later_emit.
  - destruct (get_positions (emit (EInput p) w)) as [[pos|e] w1] eqn:G;
      destruct (get_positions_only_reads _ _ _ G)
        as ((l1 & L1 & T1 & _) & F1 & K1).
    + destruct (record_loop_inv rest [mkStep 1 pos 0] 2
                  (print ("START: " ++ pos_str pos) w1))
        as (more & l & L & T & F & S & K & P & N).
      exists ([EInput p] ++ l1 ++ [EPrint ("START: " ++ pos_str pos)]
                ++ [EPrint (move_prompt 2); EInput (duration_prompt 2)]
                ++ l)%list.
      split; [|split; [|split; [|split; [|split]]]].
      * eapply later_trans; [apply later_emit|].
        eapply later_trans; [exact L1|].
        eapply later_trans; [apply later_print|].
        eapply later_trans; [apply later_prompted | exact L].
      * simpl. rewrite torque_writes_app, T1. simpl. exact T.
      * rewrite F. simpl. rewrite F1. reflexivity.
      * rewrite S. constructor; [exact (K1 pos eq_refl) | exact K].
      * rewrite S. simpl. rewrite P. reflexivity.
      * rewrite N, S. simpl length. lia.
    + exists ([EInput p] ++ l1)%list.
      split; [eapply later_trans; [apply later_emit | exact L1]|].
      split; [exact T1|]. split; [simpl; rewrite F1; reflexivity|].
      simpl. auto.
  - exists [EInput p]. auto 10 using later_emit.
Qed.

(** A torque write: refused for want of a bus, or made, and then the
    announcement follows when the bus took it. *)
Lemma torque_write_cases mode msg w r w' :
  (bus_write "Torque_Enable" (Torque mode) None ;;;
   fun w => (Ok tt, print msg w)) w = (r, w') ->
  files w' = files w /\
  ((motor_bus w = false /\ r = Exc AttributeError /\ w' = w) \/
   (motor_bus w = true /\
    match bus w (clock w) with
    | Reply _ =>
        r = Ok tt /\ clock w' = S (clock w) /\
        later w w' [EWrite "Torque_Enable" (Torque mode) None; EPrint msg]
    | Raises e =>
        r = Exc e /\
        later w w' [EWrite "Torque_Enable" (Torque mode) None]
    end)).
Proof.
  unfold bind at 1.
  destruct (bus_write_cases "Torque_Enable" (Torque mode) None w)
    as (w1 & S1 & [(Hb & -> & C1) | (L1 & K1 & F1 & Hb & C1)]);
    destruct (bus_write "Torque_Enable" (Torque mode) None w)
      as [r1 w1'] eqn:E1; simpl in S1, C1; subst.
  - intros [= <- <-]. auto.
  - destruct (bus w (clock w)) as [v|e]; subst r1; intros [= <- <-].
    + split; [exact F1|]. right. split; [exact Hb|].
      split; [reflexivity|]. split; [exact K1|].
      exact (later_trans _ _ _ _ _ L1 (later_print _ _)).
    + split; [exact F1|]. right. auto.
Qed.

Lemma close_loop_later sequence n w :
  exists l, later w (snd (close_loop sequence n w)) l /\ torque_writes l = []
            /\ files (snd (close_loop sequence n w)) = files w
            /\ clock (snd (close_loop sequence n w)) = clock w.
Proof.
  unfold close_loop. destruct sequence as [|first [|second rest]]; simpl.
  - exists []. auto using later_refl.
  - exists []. auto using later_refl.
  - eexists. split; [apply later_print|]. auto.
Qed.

(** The stages of a recording session, one after the other. *)
Lemma record_sequence_stages name stdin w r stdin' w' :
  record_sequence name stdin w = (r, stdin', w') ->
  (exists e, opening name w = (Exc e, w') /\ r = Exc e) \/
  (exists w1, opening name w = (Ok tt, w1) /\
     ((raised (capture stdin w1) <> KeyboardInterrupt /\
       r = Exc (raised (capture stdin w1)) /\
       w' = world_at (capture stdin w1)) \/
      (raised (capture stdin w1) = KeyboardInterrupt /\
       finish name (sequence_at (capture stdin w1))
              (position_num_at (capture stdin w1))
              (print (nl ++ "Recording finished! Captured "
                        ++ pretty (length (sequence_at (capture stdin w1)))
                        ++ " positions")
                     (world_at (capture stdin w1)))
       = (r, w')))).
Proof.
  unfold record_sequence.
  destruct (opening name w) as [[[]|e] w1].
  2:{ intros [= <- _ <-]. left. eauto. }
  intros H. right. exists w1. split; [reflexivity|].
  destruct (raised (capture stdin w1)) eqn:R;
    try (injection H as <- _ <-; left; split; [discriminate | auto]).
  right. split; [reflexivity|].
  destruct (finish name _ _ _) as [r2 w2]. congruence.
Qed.

Lemma opening_cases name w r w' :
  opening name w = (r, w') ->
  files w' = files w /\
  ((motor_bus w = false /\ r = Exc AttributeError /\
    later w w' (map EPrint (record_banner name))) \/
   (motor_bus w = true /\
    match bus w (clock w) with
    | Reply _ =>
        r = Ok tt /\ clock w' = S (clock w) /\
        later w w' (map EPrint (record_banner name)
                      ++ [ EWrite "Torque_Enable" (Torque DISABLED) None;
                           EPrint "Torque OFF - move robot freely" ])
    | Raises e =>
        r = Exc e /\
        later w w' (map EPrint (record_banner name)
                      ++ [ EWrite "Torque_Enable" (Torque DISABLED) None ])
    end)).
Proof.
  unfold opening, torque_off. intros H.
  pose proof (later_prints (record_banner name) w) as L0.
  pose proof L0 as (Hb0 & Hbus0 & _).
  destruct (torque_write_cases _ _ _ _ _ H) as (F & C).
  split; [exact F|].
  destruct C as [(Hb & -> & ->) | (Hb & C)].
  - left. rewrite <- Hb0. auto.
  - right. rewrite <- Hb0. split; [exact Hb|].
    change (clock (prints (record_banner name) w)) with (clock w) in C.
    rewrite Hbus0 in C.
    destruct (bus w (clock w)) as [v|e].
    + destruct C as (-> & K & L). split; [reflexivity|]. split; [exact K|].
      exact (later_trans _ _ _ _ _ L0 L).
    + destruct C as (-> & L). split; [reflexivity|].
      exact (later_trans _ _ _ _ _ L0 L).
Qed.

Lemma finish_cases name sequence n w r w' :
  finish name sequence n w = (r, w') ->
  match disk_error w with
  | Some e =>
      r = Exc e /\ files w' = files w /\
      exists l, later w w' l /\ torque_writes l = []
  | None =>
      files w'
      = <[file_path name :=
            sequence_data name (now w) (fst (close_loop sequence n w))]>
          (files w) /\
      exists l0, torque_writes l0 = [] /\
        ((motor_bus w = false /\ r = Exc AttributeError /\ later w w' l0) \/
         (motor_bus w = true /\
          match bus w (clock w) with
          | Reply _ =>
              r = Ok tt /\
              later w w'
                (l0 ++ [ EWrite "Torque_Enable" (Torque ENABLED) None;
                         EPrint "Torque ON - robot under control" ])
          | Raises e =>
              r = Exc e /\
              later w w'
                (l0 ++ [ EWrite "Torque_Enable" (Torque ENABLED) None ])
          end))
  end.
Proof.
  unfold finish.
  destruct (close_loop_later sequence n w) as (lc & Lc & Tc & Fc & Kc).
  destruct (close_loop sequence n w) as [final w0]. simpl in *.
  pose proof Lc as (Hb0 & Hbus0 & Hd0 & Hn0 & _).
  unfold bind at 1, dump. rewrite Hd0.
  destruct (disk_error w) as [e|].
  - intros [= <- <-]. eauto.
  - unfold bind at 1. fold torque_on. intros H.
    set (w1 := print ("Saved to: " ++ file_path name)
                     (store (file_path name)
                            (sequence_data name (now w0) final) w0)) in H.
    assert (L1 : later w w1 (lc ++ [EPrint ("Saved to: " ++ file_path name)])).
    { eapply later_trans; [exact Lc|]. unfold later, w1. simpl. tauto. }
    pose proof L1 as (Hb1 & Hbus1 & _).
    unfold torque_on in H.
    destruct (torque_write_cases _ _ _ _ _ H) as (F & C).
    split.
    { rewrite F. unfold w1. simpl. rewrite Fc, Hn0. reflexivity. }
    exists (lc ++ [EPrint ("Saved to: " ++ file_path name)])%list.
    split. { rewrite torque_writes_app, Tc. reflexivity. }
    rewrite Hb1 in C.
    change (clock w1) with (clock w0) in C. rewrite Kc, Hbus1 in C.
    destruct C as [(Hb & -> & ->) | (Hb & C)]; [left; auto|].
    right. split; [exact Hb|].
    destruct (bus w (clock w)) as [v|e].
    + destruct C as (-> & _ & L). split; [reflexivity|].
      exact (later_trans _ _ _ _ _ L1 L).
    + destruct C as (-> & L). split; [reflexivity|].
      exact (later_trans _ _ _ _ _ L1 L).
Qed.

(** The list [close_loop] leaves does not depend on the world. *)
Lemma close_loop_list sequence n w :
  fst (close_loop sequence n w)
  = match sequence with
    | first :: _ :: _ => (sequence ++ [mkStep n (positions first) 1])%list
    | _ => sequence
    end.
Proof. destruct sequence as [|first [|second rest]]; reflexivity. Qed.

(** A session that returns has been interrupted by the operator and has
    saved the closed list under the sequence's name. *)
Lemma record_sequence_saved name stdin w stdin' w' :
  record_sequence name stdin w = (Ok tt, stdin', w') ->
  exists w1,
    opening name w = (Ok tt, w1) /\
    raised (capture stdin w1) = KeyboardInterrupt /\
    files w' !! file_path name
    = Some (sequence_data name (now w) (closed (capture stdin w1))).
Proof.
  intros H. destruct (record_sequence_stages _ _ _ _ _ _ H)
    as [(e & _ & He) | (w1 & Ho & [(_ & He & _) | (Hr & Hf)])];
    try discriminate.
  exists w1. split; [exact Ho|]. split; [exact Hr|].
  destruct (opening_cases _ _ _ _ Ho) as (_ & [(_ & Hx & _) | (_ & Lo)]);
    [discriminate|].
  assert (Hnow1 : now w1 = now w).
  { destruct (bus w (clock w)); destruct Lo as (? & Lo); try discriminate.
    destruct Lo as (_ & Lo). apply Lo. }
  destruct (capture_inv stdin w1) as (lc & Lc & _).
  pose proof (finish_cases _ _ _ _ _ _ Hf) as C.
  change (disk_error (print ?s ?w)) with (disk_error w) in C.
  change (now (print ?s ?w)) with (now w) in C.
  destruct (disk_error (world_at (capture stdin w1))) as [e|];
    [destruct C; discriminate|].
  destruct C as (-> & _).
  rewrite lookup_insert_eq, close_loop_list.
  destruct Lc as (_ & _ & _ & -> & _). rewrite Hnow1. reflexivity.
Qed.

Lemma count_from_app lo n m :
  count_from lo (n + m)
  = (count_from lo n ++ count_from (lo + Z.of_nat n) m)%list.
Proof.
  revert lo. induction n as [|n IH]; intros lo; simpl count_from.
  - rewrite Z.add_0_r. reflexivity.
  - rewrite IH. simpl. do 3 f_equal. lia.
Qed.

(** Closing the loop keeps the list well formed. *)
Lemma closed_inv stdin w :
  Forall well_keyed (closed (capture stdin w)) /\
  map position (closed (capture stdin w))
  = count_from 1 (length (closed (capture stdin w))).
Proof.
  destruct (capture_inv stdin w) as (_ & _ & _ & _ & K & P & N).
  unfold closed.
  destruct (sequence_at (capture stdin w)) as [|first [|second rest]] eqn:E;
    [auto | auto |].
  split.
  - apply Forall_app. split; [exact K|].
    constructor; [|constructor]. inversion K; assumption.
  - rewrite map_app, length_app, count_from_app, P, N. simpl.
    repeat f_equal; lia.
Qed.

(** C1: when a session returns, the [try] block was ended by the operator's
    interrupt and the list saved is the captured one, with exactly one step
    added when more than one step was captured: a copy of the first step's
    positions with duration 1.0; a single captured step is saved alone. *)
Theorem closing_step_added_once name stdin w stdin' w' :
  record_sequence name stdin w = (Ok tt, stdin', w') ->
  exists w1 saved,
    opening name w = (Ok tt, w1) /\
    raised (capture stdin w1) = KeyboardInterrupt /\
    files w' !! file_path name = Some (sequence_data name (now w) saved) /\
    ((1 < length (sequence_at (capture stdin w1)))%nat ->
     exists first closing,
       head (sequence_at (capture stdin w1)) = Some first /\
       saved = (sequence_at (capture stdin w1) ++ [closing])%list /\
       positions closing = positions first /\
       duration closing = 1%float /\
       position closing = Z.of_nat (length saved)) /\
    (length (sequence_at (capture stdin w1)) = 1%nat ->
     saved = sequence_at (capture stdin w1) /\ length saved = 1%nat).
Proof.
  intros H. destruct (record_sequence_saved _ _ _ _ _ H) as (w1 & Ho & Hr & Hf).
  exists w1, (closed (capture stdin w1)).
  split; [exact Ho|]. split; [exact Hr|]. split; [exact Hf|].
  destruct (capture_inv stdin w1) as (_ & _ & _ & _ & _ & _ & N).
  unfold closed.
  destruct (sequence_at (capture stdin w1)) as [|first [|second rest]];
    simpl length in *.
  - split; [lia | discriminate].
  - split; [lia | auto].
  - split; [|discriminate].
    intros _. exists first. eexists. split; [reflexivity|].
    split; [reflexivity|]. simpl. split; [reflexivity|].
    split; [reflexivity|]. rewrite N, length_app. simpl. lia.
Qed.

(** C10: the steps of a session have the six configured joints as the keys
    of their positions and are numbered 1, 2, ... in list order, in the
    captured list and in the closed one; when the session returns, the
    closed list is the one saved, and [total_positions] is its length. *)
Theorem recorded_steps_are_numbered name stdin w :
  (forall w1,
      Forall well_keyed (sequence_at (capture stdin w1)) /\
      map position (sequence_at (capture stdin w1))
      = count_from 1 (length (sequence_at (capture stdin w1))) /\
      Forall well_keyed (closed (capture stdin w1)) /\
      map position (closed (capture stdin w1))
      = count_from 1 (length (closed (capture stdin w1)))) /\
  (forall stdin' w',
      record_sequence name stdin w = (Ok tt, stdin', w') ->
      exists saved data,
        files w' !! file_path name = Some data /\
        data = sequence_data name (now w) saved /\
        (exists w1, opening name w = (Ok tt, w1) /\
                    saved = closed (capture stdin w1)) /\
        Forall (fun st => keys (positions st)
                          = [ "shoulder_pan"; "shoulder_lift"; "elbow_flex";
                              "wrist_flex"; "wrist_roll"; "gripper" ]) saved /\
        map position saved = count_from 1 (length saved) /\
        getitem data "total_positions"
        = Ok (JInt (Z.of_nat (length saved)))).
Proof.
  split.
  - intros w1. destruct (capture_inv stdin w1) as (_ & _ & _ & _ & K & P & _).
    destruct (closed_inv stdin w1) as (K' & P'). auto.
  - intros stdin' w' H.
    destruct (record_sequence_saved _ _ _ _ _ H) as (w1 & Ho & _ & Hf).
    destruct (closed_inv stdin w1) as (K' & P').
    exists (closed (capture stdin w1)). eexists.
    split; [exact Hf|]. split; [reflexivity|]. split; [eauto|].
    split; [exact K'|]. split; [exact P' | reflexivity].
Qed.

Lemma later_eq w w' l l' : later w w' l -> l = l' -> later w w' l'.
Proof. intros L <-. exact L. Qed.

(** The torque writes of a session on a connected arm. *)
Lemma session_torque_writes name stdin w r stdin' w' :
  motor_bus w = true ->
  record_sequence name stdin w = (r, stdin', w') ->
  exists l,
    later w w' (map EPrint (record_banner name)
                  ++ EWrite "Torque_Enable" (Torque DISABLED) None :: l) /\
    (r = Ok tt ->
     torque_writes l = [ENABLED] /\
     exists l0,
       l = (l0 ++ [ EWrite "Torque_Enable" (Torque ENABLED) None;
                    EPrint "Torque ON - robot under control" ])%list) /\
    (forall w1,
        opening name w = (Ok tt, w1) ->
        (raised (capture stdin w1) <> KeyboardInterrupt ->
         r = Exc (raised (capture stdin w1)) /\ torque_writes l = []) /\
        (raised (capture stdin w1) = KeyboardInterrupt ->
         disk_error w = None ->
         (exists v, bus w (clock (world_at (capture stdin w1))) = Reply v) ->
         r = Ok tt)).
Proof.
  intros Hb H.
  destruct (record_sequence_stages _ _ _ _ _ _ H)
    as [(e & Ho & ->) | (w1 & Ho & Hc)].
  - destruct (opening_cases _ _ _ _ Ho) as (_ & [(Hb' & _) | (_ & Lo)]);
      [congruence|].
    destruct (bus w (clock w)); destruct Lo as (Hr & Lo); [discriminate|].
    exists []. split; [exact Lo|]. split; [discriminate|].
    intros w1 Ho'. congruence.
  - destruct (opening_cases _ _ _ _ Ho) as (_ & [(Hb' & _) | (_ & Lo)]);
      [congruence|].
    destruct (bus w (clock w)); destruct Lo as (Hr & Lo); [|discriminate].
    destruct Lo as (_ & Lo).
    destruct (capture_inv stdin w1) as (lc & Lc & Tc & _).
    pose proof (later_trans _ _ _ _ _ Lo Lc) as Lw.
    pose proof Lw as (Hbs & Hbuss & Hds & _).
    destruct Hc as [(Hne & -> & ->) | (Hki & Hf)].
    + exists (EPrint "Torque OFF - move robot freely" :: lc).
      split; [|split].
      * eapply later_eq; [exact Lw|]. rewrite <- app_assoc. reflexivity.
      * discriminate.
      * intros w1' Ho'. assert (w1' = w1) as -> by congruence.
        split; [auto | contradiction].
    + pose proof (finish_cases _ _ _ _ _ _ Hf) as C.
      set (done := print _ (world_at (capture stdin w1))) in *.
      assert (Ld : later w done
                     (map EPrint (record_banner name)
                        ++ EWrite "Torque_Enable" (Torque DISABLED) None
                        :: (EPrint "Torque OFF - move robot freely" :: lc)
                        ++ [EPrint (nl ++ "Recording finished! Captured "
                                      ++ pretty (length (sequence_at
                                                           (capture stdin w1)))
                                      ++ " positions")])).
      { eapply later_eq;
          [exact (later_trans _ _ _ _ _ Lw (later_print _ _))|].
        rewrite <- !app_assoc. reflexivity. }
      pose proof Ld as (Hbd & Hbusd & Hdd & _).
      change (clock done) with (clock (world_at (capture stdin w1))) in C.
      rewrite Hdd, Hbd, Hbusd, Hb in C.
      destruct (disk_error w) as [e|].
      * destruct C as (-> & _ & lf & Lf & Tf).
        eexists. split; [|split].
        -- eapply later_eq; [exact (later_trans _ _ _ _ _ Ld Lf)|].
           rewrite <- !app_assoc. simpl. reflexivity.
        -- discriminate.
        -- intros w1' Ho'. assert (w1' = w1) as -> by congruence.
           split; [contradiction | discriminate].
      * destruct C as (_ & l0 & T0 & [(? & _) | (_ & C)]); [discriminate|].
        destruct (bus w (clock (world_at (capture stdin w1)))) as [v2|e]
          eqn:Hrep; destruct C as (-> & Lf).
        -- eexists. split; [|split].
           ++ eapply later_eq; [exact (later_trans _ _ _ _ _ Ld Lf)|].
              rewrite <- !app_assoc. simpl. reflexivity.
           ++ intros _. split.
              ** simpl. rewrite !torque_writes_app, Tc, T0. reflexivity.
              ** exists (EPrint "Torque OFF - move robot freely"
                           :: lc ++ [EPrint (nl ++ "Recording finished! Captured "
                                      ++ pretty (length (sequence_at
                                                           (capture stdin w1)))
                                      ++ " positions")] ++ l0)%list.
                 simpl. rewrite <- !app_assoc. reflexivity.
           ++ intros w1' Ho'. assert (w1' = w1) as -> by congruence.
              split; [contradiction | reflexivity].
        -- eexists. split; [|split].
           ++ eapply later_eq; [exact (later_trans _ _ _ _ _ Ld Lf)|].
              rewrite <- !app_assoc. simpl. reflexivity.
           ++ discriminate.
           ++ intros w1' Ho'. assert (w1' = w1) as -> by congruence.
              split; [contradiction|].
              intros _ _ (v2 & Hv). congruence.
Qed.

(** What the handler of [main] adds to a run of its body on a connected
    arm: the report of an [Exception], then the disconnection; no torque
    write. *)
Lemma guarded_cleanup body stdin w r stdin' w' :
  body stdin w = (r, stdin', w') ->
  motor_bus w' = true ->
  exists l,
    later w' (snd (guarded body stdin w)) l /\
    torque_writes l = [] /\ In EDisconnect l /\
    (forall e, r = Exc e -> is_Exception e = true ->
               head l = Some (EPrint ("ERROR: " ++ exn_name e))).
Proof.
  intros Hbody Hb.
  assert (Hd : forall w0 rd wd,
             motor_bus w0 = true -> disconnect w0 = (rd, wd) ->
             exists l, later w0 wd (EDisconnect :: l) /\ torque_writes l = []).
  { intros w0 rd wd Hb0. unfold disconnect. rewrite Hb0. unfold bind, say.
    destruct (bus_call_cases EDisconnect w0)
      as [[Hf _] | [_ (w1 & L1 & _ & _ & E1)]]; [congruence|].
    destruct (bus w0 (clock w0)); rewrite E1; intros [= <- <-].
    - exists [EPrint "Disconnected"]. split; [|reflexivity].
      exact (later_trans _ _ _ _ _ L1 (later_print _ _)).
    - exists []. auto. }
  unfold guarded. rewrite Hbody. destruct r as [[]|e].
  - destruct (disconnect w') as [rd wd] eqn:D.
    destruct (Hd _ _ _ Hb D) as (l & L & T).
    exists (EDisconnect :: l).
    split; [destruct rd; exact L|]. split; [exact T|].
    split; [left; reflexivity | discriminate].
  - destruct (is_Exception e) eqn:He.
    + destruct (disconnect (print ("ERROR: " ++ exn_name e) w'))
        as [rd wd] eqn:D.
      destruct (Hd (print ("ERROR: " ++ exn_name e) w') _ _ Hb D)
        as (l & L & T).
      exists (EPrint ("ERROR: " ++ exn_name e) :: EDisconnect :: l).
      split; [destruct rd;
              exact (later_trans _ _ _ _ _ (later_print _ _) L)|].
      split; [exact T|]. split; [right; left; reflexivity|].
      intros e0 [= <-] _. reflexivity.
    + destruct (disconnect w') as [rd wd] eqn:D.
      destruct (Hd _ _ _ Hb D) as (l & L & T).
      exists (EDisconnect :: l).
      split; [destruct rd; exact L|]. split; [exact T|].
      split; [left; reflexivity|]. intros e0 [= <-]. congruence.
Qed.

(** X16: as it stands, [main] never opens a session: started without a
    bus, whatever the mode, it reports the [NameError] of [connect] and
    exits with status 1; no bus call is made, nothing is read from the
    operator, and there is nothing to disconnect. *)
Lemma main_stops_at_connect mode name port stdin w :
  motor_bus w = false ->
  main mode name port stdin w
  = (Ok 1, stdin,
     print "ERROR: NameError"
           (print ("Connecting to robot on " ++ port ++ "...") w)).
Proof.
  intros Hb. unfold main, guarded, connect, bind, say, raise, disconnect.
  simpl. rewrite Hb. reflexivity.
Qed.

(** C2, as the code has it: a recording session on a connected arm first
    writes torque off, and makes no torque write while it captures; when it
    returns, its last bus call has written torque on. When the [try] block
    is left by anything but the operator's interrupt, that exception leaves
    [record_sequence] and torque has not been written again; when it is
    left by the interrupt, the disk takes the file and the bus takes the
    write, the session returns. The handler of [main] then disconnects, and
    writes no torque either. *)
Theorem torque_restored_when_interrupted name stdin w r stdin' w' :
  motor_bus w = true ->
  record_sequence name stdin w = (r, stdin', w') ->
  (exists l,
      later w w' (map EPrint (record_banner name)
                    ++ EWrite "Torque_Enable" (Torque DISABLED) None :: l) /\
      (r = Ok tt ->
       torque_writes l = [ENABLED] /\
       exists l0,
         l = (l0 ++ [ EWrite "Torque_Enable" (Torque ENABLED) None;
                      EPrint "Torque ON - robot under control" ])%list) /\
      (forall w1,
          opening name w = (Ok tt, w1) ->
          (raised (capture stdin w1) <> KeyboardInterrupt ->
           r = Exc (raised (capture stdin w1)) /\ torque_writes l = []) /\
          (raised (capture stdin w1) = KeyboardInterrupt ->
           disk_error w = None ->
           (exists v, bus w (clock (world_at (capture stdin w1))) = Reply v) ->
           r = Ok tt))) /\
  (exists l,
      later w' (snd (guarded (record_sequence name) stdin w)) l /\
      torque_writes l = [] /\ In EDisconnect l).
Proof.
  intros Hb H. split; [exact (session_torque_writes _ _ _ _ _ _ Hb H)|].
  destruct (session_torque_writes _ _ _ _ _ _ Hb H) as (l0 & (Hb' & _) & _).
  destruct (guarded_cleanup _ _ _ _ _ _ H) as (l & L & T & I & _);
    [congruence|].
  exists l. auto.
Qed.

(** ** The sequence file, written and read back *)

Lemma load_positions_written pos :
  load_positions (map (fun mp => (fst mp, JInt (snd mp))) pos) = Ok pos.
Proof.
  induction pos as [|[k z] pos IH]; simpl; [reflexivity|].
  rewrite IH. reflexivity.
Qed.

Lemma load_step_written st : load_step (step_to_json st) = Ok st.
Proof.
  destruct st as [n pos d]. unfold load_step, step_to_json, positions_to_json.
  cbn. rewrite load_positions_written. reflexivity.
Qed.

Lemma list_steps_written sequence w :
  list_steps (map step_to_json sequence) w
  = (Ok sequence, prints (map listed_line sequence) w).
Proof.
  revert w. induction sequence as [|st sequence IH]; intros w; simpl.
  - reflexivity.
  - unfold bind at 1, lift. rewrite load_step_written.
    unfold bind at 1, say. unfold bind at 1. rewrite IH. reflexivity.
Qed.

Lemma load_sequence_written name recorded_at sequence :
  load_sequence (sequence_data name recorded_at sequence)
  = Ok (map step_to_json sequence).
Proof. reflexivity. Qed.

Lemma open_sequence_written name recorded_at sequence w :
  open_sequence name (sequence_data name recorded_at sequence) w
  = (Ok sequence, prints (listing name sequence) w).
Proof.
  unfold open_sequence. rewrite load_sequence_written.
  unfold bind, lift. rewrite list_steps_written, length_map.
  unfold listing, prints. rewrite fold_left_app. reflexivity.
Qed.

(** C6: once [record_sequence]'s save has written a sequence, whatever its
    steps, [play_sequence] run on a disk that still holds that file loads
    the very same list of steps, ordinals, positions and durations in the
    same order, and that list is what it plays back. *)
Theorem saved_sequence_loads_back name recorded_at sequence w w1 w2 stdin :
  dump (file_path name) (sequence_data name recorded_at sequence) w
  = (Ok tt, w1) ->
  files w2 !! file_path name = files w1 !! file_path name ->
  exists data w3,
    files w2 !! file_path name = Some data /\
    open_sequence name data w2 = (Ok sequence, w3) /\
    later w2 w3 (map EPrint (listing name sequence)) /\
    play_sequence name stdin w2
    = match input (nl ++ "Press ENTER to start playback...") stdin w3 with
      | (Exc e, rest, w) => (Exc e, rest, w)
      | (Ok _, rest, w) => let (r, w) := playback sequence w in (r, rest, w)
      end.
Proof.
  unfold dump. destruct (disk_error w); [discriminate|].
  intros [= <-] Hsame. simpl in Hsame. rewrite lookup_insert_eq in Hsame.
  exists (sequence_data name recorded_at sequence),
    (prints (listing name sequence) w2).
  split; [exact Hsame|]. split; [apply open_sequence_written|].
  split; [apply later_prints|].
  unfold play_sequence. rewrite Hsame, open_sequence_written. reflexivity.
Qed.

(** C8: with no file under the sequence's name, [play_sequence] says so and
    returns: the one thing it does is that print; no bus call is made, and
    the disk and the operator's pending input are as they were. *)
Theorem missing_sequence_is_reported name stdin w :
  files w !! file_path name = None ->
  exists w',
    play_sequence name stdin w = (Ok tt, stdin, w') /\
    later w w' [EPrint ("Sequence file not found: " ++ file_path name)] /\
    clock w' = clock w /\ files w' = files w.
Proof.
  intros Hnone. unfold play_sequence. rewrite Hnone.
  eexists. split; [reflexivity|]. split; [apply later_print|].
  split; reflexivity.
Qed.

(** ** Playback *)

Lemma sleeps_goal_writes t pos n : sleeps (take n (goal_writes t pos)) = [].
Proof.
  revert n. induction pos as [|[m p] pos IH]; intros n; simpl.
  - destruct n; reflexivity.
  - destruct n as [|[|n]]; simpl; auto.
Qed.

Lemma time_ms_fast : time_ms 0 = Ok 800.
Proof. reflexivity. Qed.

(** A step of the playback loop that goes through [move_to_position] with
    duration [d] and then sleeps [s] seconds: the print, an initial part of
    the goal writes, and the sleep when all the writes went through. *)
Lemma timed_move msg pos d s w r w' :
  (say msg ;;; move_to_position pos d ;;; sleep s) w = (r, w') ->
  match time_ms d with
  | Ok t =>
      (r = Ok tt /\ later w w' (EPrint msg :: goal_writes t pos ++ [ESleep s]))
      \/ ((exists e, r = Exc e) /\
          exists n, later w w' (EPrint msg :: take n (goal_writes t pos)))
  | Exc e => r = Exc e /\ later w w' [EPrint msg]
  end.
Proof.
  unfold bind at 1, say. unfold bind at 1.
  destruct (move_to_position pos d (print msg w)) as [[[]|e] w1] eqn:E;
    pose proof (move_to_position_trace _ _ _ _ _ E) as T;
    destruct (time_ms d) as [t|e'].
  - unfold sleep. intros [= <- <-]. left. split; [reflexivity|].
    destruct T as (n & _ & Lfull). specialize (Lfull eq_refl).
    change (EPrint msg :: goal_writes t pos ++ [ESleep s])
      with ([EPrint msg] ++ goal_writes t pos ++ [ESleep s])%list.
    eapply later_trans; [apply later_print|].
    eapply later_trans; [exact Lfull | apply later_emit].
  - destruct T; discriminate.
  - intros [= <- <-]. right. split; [eauto|].
    destruct T as (n & Ln & _). exists n.
    exact (later_trans _ _ _ _ _ (later_print _ _) Ln).
  - intros [= <- <-]. destruct T as (-> & ->). split; [reflexivity|].
    apply later_print.
Qed.

(** What a step of the loop leaves in the log: one sleep when it goes
    through, none when it raises. *)
Lemma play_step_sleeps st w r w' :
  play_step st w = (r, w') ->
  exists l, later w w' l /\
    match r with
    | Ok _ =>
        sleeps l
        = [ if (position st =? 1)%Z then 1.2%float
            else if (duration st =? 0)%float then 1%float
            else (duration st * 4 + 1)%float ]
    | Exc _ => sleeps l = []
    end.
Proof.
  unfold play_step. intros H.
  assert (Hgen : forall msg d s,
             (say msg ;;; move_to_position (positions st) d ;;; sleep s) w
             = (r, w') ->
             exists l, later w w' l /\
               match r with Ok _ => sleeps l = [s] | Exc _ => sleeps l = [] end).
  { clear H. intros msg d s H. pose proof (timed_move _ _ _ _ _ _ _ H) as T.
    destruct (time_ms d) as [t|e].
    - destruct T as [(-> & L) | ((e & ->) & n & L)]; eexists; (split; [exact L|]).
      + simpl. rewrite sleeps_app.
        rewrite <- (firstn_all (goal_writes t (positions st))).
        rewrite sleeps_goal_writes. reflexivity.
      + simpl. apply sleeps_goal_writes.
    - destruct T as (-> & L). eexists. split; [exact L | reflexivity]. }
  destruct (position st =? 1)%Z; [exact (Hgen _ _ _ H)|].
  destruct (duration st =? 0)%float; exact (Hgen _ _ _ H).
Qed.

(** C3: a step whose ordinal is not 1 and that goes through leaves in the
    log its print, its goal writes and then one sleep, of [4 * d + 1.0]
    seconds when its duration [d] is positive and of 1.0 second when [d] is
    0; and in any run of the playback loop, the sleeps made are, in order,
    those of the steps gone through, all of them when the loop ends without
    an exception. *)
Theorem playback_waits :
  (forall st w w',
      position st <> 1 ->
      play_step st w = (Ok tt, w') ->
      exists msg t s,
        time_ms (duration st) = Ok t /\
        later w w' (EPrint msg :: goal_writes t (positions st) ++ [ESleep s]) /\
        ((0 <? duration st)%float = true -> s = (duration st * 4 + 1)%float) /\
        ((duration st =? 0)%float = true -> s = 1%float)) /\
  (forall steps w r w',
      play_steps steps w = (r, w') ->
      exists l k,
        later w w' l /\
        (r = Ok tt -> k = length steps) /\
        Forall2 waits_as_timed (take k steps) (sleeps l)).
Proof.
  split.
  - intros st w w' Hne. apply Z.eqb_neq in Hne.
    unfold play_step. rewrite Hne.
    destruct (duration st =? 0)%float eqn:Hd; intros H;
      pose proof (timed_move _ _ _ _ _ _ _ H) as T.
    + rewrite time_ms_fast in T.
      destruct T as [(_ & L) | ((e & He) & _)]; [|discriminate].
      eexists _, 800, 1%float. unfold time_ms. rewrite Hd.
      split; [reflexivity|]. split; [exact L|].
      split; [|reflexivity].
      intros Hpos. rewrite (positive_not_zero _ Hpos) in Hd. discriminate.
    + destruct (time_ms (duration st)) as [t|e]; [|destruct T; discriminate].
      destruct T as [(_ & L) | ((e & He) & _)]; [|discriminate].
      eexists _, t, _. split; [reflexivity|]. split; [exact L|].
      split; [reflexivity | discriminate].
  - intros steps. induction steps as [|st steps IH]; intros w r w'; simpl.
    + intros [= <- <-]. exists [], 0%nat.
      split; [apply later_refl|]. split; [reflexivity | constructor].
    + unfold bind at 1.
      destruct (play_step st w) as [[[]|e] w1] eqn:E;
        destruct (play_step_sleeps _ _ _ _ E) as (l1 & L1 & S1).
      * intros Hrest. destruct (IH _ _ _ Hrest) as (l & k & L & Hk & F).
        exists (l1 ++ l)%list, (S k).
        split; [exact (later_trans _ _ _ _ _ L1 L)|].
        split; [intros Hr; rewrite (Hk Hr); reflexivity|].
        rewrite sleeps_app, S1. simpl. constructor; [|exact F].
        intros Hne. apply Z.eqb_neq in Hne. rewrite Hne. split.
        -- intros Hpos. rewrite (positive_not_zero _ Hpos). reflexivity.
        -- intros ->. reflexivity.
      * intros [= <- <-]. exists l1, 0%nat.
        split; [exact L1|]. split; [discriminate|]. rewrite S1. constructor.
Qed.

(** C4: a step whose ordinal is 1, whatever its duration, is played with
    the fast time of 800 ms in every [Goal_Time] write, and, when all its
    writes went through, followed by a sleep of 1.2 seconds; on a bus that
    answers, they all go through. *)
Theorem start_step_is_fast st w r w' :
  position st = 1 ->
  play_step st w = (r, w') ->
  (exists msg,
      (r = Ok tt /\
       later w w' (EPrint msg :: goal_writes 800 (positions st)
                     ++ [ESleep 1.2%float])) \/
      ((exists e, r = Exc e) /\
       exists n,
         later w w' (EPrint msg :: take n (goal_writes 800 (positions st))))) /\
  (motor_bus w = true ->
   (forall i, (i < 2 * length (positions st))%nat ->
              exists v, bus w (clock w + i)%nat = Reply v) ->
   r = Ok tt).
Proof.
  intros Hone H.
  assert (Hfast : (say ("Position " ++ pretty (position st) ++ ": "
                          ++ pos_str (positions st) ++ " (moving to start)") ;;;
                   move_to_position (positions st) 0 ;;;
                   sleep 1.2) w = (r, w')).
  { unfold play_step in H. rewrite Hone in H. rewrite Hone. exact H. }
  clear H. split.
  - eexists. exact (timed_move _ _ _ _ _ _ _ Hfast).
  - intros Hb Hok. revert Hfast. unfold bind at 1, say. unfold bind at 1.
    unfold move_to_position, bind, lift. rewrite time_ms_fast.
    match goal with
    | |- context [write_goals 800 _ ?w0] =>
        destruct (write_goals_healthy 800 (positions st) w0 Hb Hok)
          as (w2 & -> & _)
    end.
    unfold sleep. congruence.
Qed.

(** ** Further properties of the sampler *)



Lemma replies_hold (f : nat -> reply) :
  (forall i, exists v z, f i = Reply v /\ holds v z) ->
  forall l : list nat,
    exists vs zs, map f l = map Reply vs /\ Forall2 holds vs zs.
Proof.
  intros Hf l. induction l as [|i l (vs & zs & E & F)].
  - exists [], []. split; [reflexivity | constructor].
  - destruct (Hf i) as (v & z & Ev & Hv).
    exists (v :: vs), (z :: zs). simpl. rewrite Ev, E.
    split; [reflexivity | constructor; assumption].
Qed.

(** On a bus that answers with integers, [get_positions] returns. *)
Lemma get_positions_answering w :
  motor_bus w = true -> answering w ->
  exists pos w',
    get_positions w = (Ok pos, w') /\
    later w w' (map (ERead "Present_Position") (keys motors_config)).
Proof.
  intros Hb Ha.
  destruct (replies_hold (fun i => bus w (clock w + i)%nat)
              (fun i => Ha _) (seq 0 (length motors_config)))
    as (vs & zs & E & F).
  destruct (read_joints_values (keys motors_config) [] w vs zs Hb E F)
    as (w' & Er & L).
  eauto.
Qed.

Lemma bus_on_later w w' l :
  later w w' l -> motor_bus w = true -> motor_bus w' = true.
Proof. intros (-> & _) Hb. exact Hb. Qed.

Lemma answering_later w w' l : later w w' l -> answering w -> answering w'.
Proof. intros (_ & Hbus & _) Ha n. rewrite Hbus. apply Ha. Qed.

(** ** Further properties of the recorder *)

(** The loop run on a script of answers closed by the interrupt: it stops
    at the interrupt, having kept one step per accepted answer. *)
Lemma record_loop_script texts rest sequence n w :
  motor_bus w = true -> answering w ->
  raised (record_loop (map Line texts ++ Ctrl_C :: rest) sequence n w)
  = KeyboardInterrupt /\
  stdin_at (record_loop (map Line texts ++ Ctrl_C :: rest) sequence n w)
  = rest /\
  map duration
      (sequence_at (record_loop (map Line texts ++ Ctrl_C :: rest)
                                sequence n w))
  = (map duration sequence ++ omap accepted texts)%list.
Proof.
  revert sequence n w. induction texts as [|text texts IH];
    intros sequence n w Hb Ha.
  - simpl. rewrite app_nil_r. auto.
  - cbn [map app record_loop omap list_omap]. fold (prompted n w).
    unfold accepted at 1.
    destruct (py_float (strip text)) as [d|]; [|apply IH; assumption].
    destruct (d <? 0)%float; [apply IH; assumption|].
    destruct (get_positions_answering (prompted n w) Hb Ha)
      as (pos & w1 & -> & L1).
    pose proof L1 as (Hb1 & _).
    destruct (IH (sequence ++ [mkStep n pos d])%list (n + 1)
                 (print (recorded_line n pos d) w1)) as (R & S & D).
    { exact (bus_on_later (prompted n w) w1 _ L1 Hb). }
    { exact (answering_later _ _ _ L1 Ha). }
    split; [exact R|]. split; [exact S|].
    rewrite D, map_app, <- app_assoc. reflexivity.
Qed.

(** The loop run on a script that ends without an interrupt: it stops on
    the closed terminal. *)
Lemma record_loop_eof texts sequence n w :
  motor_bus w = true -> answering w ->
  raised (record_loop (map Line texts) sequence n w) = EOFError /\
  stdin_at (record_loop (map Line texts) sequence n w) = [].
Proof.
  revert sequence n w. induction texts as [|text texts IH];
    intros sequence n w Hb Ha.
  - split; reflexivity.
  - cbn [map record_loop]. fold (prompted n w).
    destruct (py_float (strip text)) as [d|]; [|apply IH; assumption].
    destruct (d <? 0)%float; [apply IH; assumption|].
    destruct (get_positions_answering (prompted n w) Hb Ha)
      as (pos & w1 & -> & L1).
    pose proof L1 as (Hb1 & _).
    apply IH; [exact (bus_on_later (prompted n w) w1 _ L1 Hb)
              | exact (answering_later _ _ _ L1 Ha)].
Qed.

Lemma record_sequence_stdin name stdin w r stdin' w' w1 :
  record_sequence name stdin w = (r, stdin', w') ->
  opening name w = (Ok tt, w1) ->
  stdin' = stdin_at (capture stdin w1).
Proof.
  unfold record_sequence. intros H Ho. rewrite Ho in H.
  destruct (raised (capture stdin w1));
    try (injection H as _ <- _; reflexivity).
  destruct (finish name _ _ _) as [r2 w2]. congruence.
Qed.

(** On an arm that answers, the session gets past torque off. *)
Lemma opening_answering name w :
  motor_bus w = true -> answering w ->
  exists w1,
    opening name w = (Ok tt, w1) /\
    later w w1 (map EPrint (record_banner name)
                  ++ [ EWrite "Torque_Enable" (Torque DISABLED) None;
                       EPrint "Torque OFF - move robot freely" ]) /\
    files w1 = files w.
Proof.
  intros Hb Ha. destruct (opening name w) as [r w1] eqn:Ho.
  destruct (opening_cases _ _ _ _ Ho) as (F & [(Hf & _) | (_ & C)]);
    [congruence|].
  destruct (Ha (clock w)) as (v & z & Ev & _). rewrite Ev in C.
  destruct C as (-> & _ & L). eauto.
Qed.

(** A session made of the start, answers and the interrupt, on an arm that
    answers and a disk that takes the file. *)
Lemma session_on_answering_arm name first texts rest w :
  motor_bus w = true -> answering w -> disk_error w = None ->
  exists w' saved,
    record_sequence name (Line first :: map Line texts ++ Ctrl_C :: rest) w
    = (Ok tt, rest, w') /\
    files w' !! file_path name = Some (sequence_data name (now w) saved) /\
    map duration saved
    = (0%float :: omap accepted texts
         ++ match omap accepted texts with [] => [] | _ => [1%float] end)%list
    /\ map position saved = count_from 1 (length saved)
    /\ exists l, later w w' l.
Proof.
  intros Hb Ha Hd.
  set (stdin := Line first :: map Line texts ++ Ctrl_C :: rest).
  destruct (opening_answering name w Hb Ha) as (w1 & Ho & Lo & _).
  pose proof Lo as (Hb1 & Hbus1 & _).
  assert (Hb1' : motor_bus w1 = true) by congruence.
  assert (Ha1 : answering w1) by exact (answering_later _ _ _ Lo Ha).
  assert (Hcap : raised (capture stdin w1) = KeyboardInterrupt /\
                 stdin_at (capture stdin w1) = rest /\
                 map duration (sequence_at (capture stdin w1))
                 = 0%float :: omap accepted texts).
  { unfold capture, stdin, input.
    set (w2 := emit _ w1).
    destruct (get_positions_answering w2) as (pos & w3 & -> & L3);
      [exact Hb1' | exact Ha1 |].
    pose proof L3 as (Hb3 & _).
    apply record_loop_script; [exact (bus_on_later w2 w3 _ L3 Hb1')|].
    apply (answering_later w2 _ _ L3). exact Ha1. }
  destruct Hcap as (Hr & Hs & Hdur).
  destruct (record_sequence name stdin w) as [[r stdin'] w'] eqn:Hrun.
  pose proof (record_sequence_stdin _ _ _ _ _ _ _ Hrun Ho) as ->.
  destruct (session_torque_writes _ _ _ _ _ _ Hb Hrun) as (l & Ll & _ & Hw1).
  destruct (Hw1 w1 Ho) as (_ & Hok).
  assert (r = Ok tt) as ->.
  { apply Hok; [exact Hr | exact Hd |].
    destruct (Ha (clock (world_at (capture stdin w1)))) as (v & _ & Ev & _).
    eauto. }
  destruct (record_sequence_saved _ _ _ _ _ Hrun) as (w1' & Ho' & _ & Hf).
  assert (w1' = w1) as -> by congruence.
  destruct (closed_inv stdin w1) as (_ & Hp).
  exists w', (closed (capture stdin w1)).
  split; [rewrite Hs; reflexivity|]. split; [exact Hf|].
  split; [|split; [exact Hp | eauto]].
  unfold closed.
  destruct (sequence_at (capture stdin w1)) as [|st0 [|st1 more]] eqn:E;
    simpl in Hdur.
  - discriminate.
  - injection Hdur as H0 Hacc. rewrite <- Hacc. simpl. rewrite H0.
    reflexivity.
  - rewrite map_app. simpl map. rewrite Hdur.
    injection Hdur as _ Hacc. rewrite <- Hacc. reflexivity.
Qed.

(** X2: on an arm that answers and a disk that takes the file, a session
    made of the start, any answers at the duration prompt and the interrupt
    returns, leaves what the operator typed after the interrupt unread, and
    saves one step per accepted answer after the start: the durations saved
    are 0.0, the accepted numbers in order, and the closing 1.0 when there
    was an accepted answer; the ordinals are 1, 2, ... *)
Theorem session_saves_accepted_answers name first texts rest w :
  motor_bus w = true -> answering w -> disk_error w = None ->
  exists w' saved,
    record_sequence name (Line first :: map Line texts ++ Ctrl_C :: rest) w
    = (Ok tt, rest, w') /\
    files w' !! file_path name = Some (sequence_data name (now w) saved) /\
    map duration saved
    = (0%float :: omap accepted texts
         ++ match omap accepted texts with [] => [] | _ => [1%float] end)%list
    /\ map position saved = count_from 1 (length saved).
Proof.
  intros Hb Ha Hd.
  destruct (session_on_answering_arm name first texts rest w Hb Ha Hd)
    as (w' & saved & H & Hf & Hdur & Hp & _).
  eauto 6.
Qed.

(** X3: when the terminal closes before the operator interrupts, the
    session ends with [EOFError] on an arm that answers: nothing is saved,
    and the one torque write of the session is the one that switched
    torque off. *)
Theorem session_without_interrupt_saves_nothing name texts w :
  motor_bus w = true -> answering w ->
  exists w' l,
    record_sequence name (map Line texts) w = (Exc EOFError, [], w') /\
    files w' = files w /\
    later w w' l /\ torque_writes l = [DISABLED].
Proof.
  intros Hb Ha.
  destruct (opening_answering name w Hb Ha) as (w1 & Ho & Lo & Fo).
  assert (Hb1 : motor_bus w1 = true) by exact (bus_on_later _ _ _ Lo Hb).
  assert (Ha1 : answering w1) by exact (answering_later _ _ _ Lo Ha).
  assert (Hcap : raised (capture (map Line texts) w1) = EOFError /\
                 stdin_at (capture (map Line texts) w1) = []).
  { unfold capture, input. destruct texts as [|first texts]; [auto|].
    cbn [map]. set (w2 := emit _ w1).
    destruct (get_positions_answering w2) as (pos & w3 & -> & L3);
      [exact Hb1 | exact Ha1 |].
    apply record_loop_eof; [exact (bus_on_later w2 w3 _ L3 Hb1)|].
    apply (answering_later w2 _ _ L3). exact Ha1. }
  destruct Hcap as (Hr & Hs).
  destruct (capture_inv (map Line texts) w1) as (lc & Lc & Tc & Fc & _).
  exists (world_at (capture (map Line texts) w1)). eexists.
  split; [|split; [|split]].
  - unfold record_sequence. rewrite Ho, Hr, Hs. reflexivity.
  - congruence.
  - exact (later_trans _ _ _ _ _ Lo Lc).
  - rewrite !torque_writes_app, torque_writes_prints, Tc. reflexivity.
Qed.



(** ** Further properties of the player *)

Lemma keeps_files_bind {A B} (m : M A) (k : A -> M B) :
  keeps_files m -> (forall a, keeps_files (k a)) -> keeps_files (bind m k).
Proof.
  intros Hm Hk w r w'. unfold bind.
  destruct (m w) as [[a|e] w1] eqn:E; pose proof (Hm _ _ _ E) as F1.
  - intros H. rewrite (Hk a _ _ _ H). exact F1.
  - intros [= <- <-]. exact F1.
Qed.

Lemma keeps_files_bus_write reg v mo : keeps_files (bus_write reg v mo).
Proof.
  intros w r w' H.
  destruct (bus_write_cases reg v mo w) as (w1 & S1 & C).
  rewrite H in S1. simpl in S1. subst w1.
  destruct C as [(_ & -> & _) | (_ & _ & F & _)]; [reflexivity | exact F].
Qed.

Lemma keeps_files_say s : keeps_files (say s).
Proof. intros w r w' [= <- <-]. reflexivity. Qed.

Lemma keeps_files_sleep s : keeps_files (sleep s).
Proof. intros w r w' [= <- <-]. reflexivity. Qed.

Lemma keeps_files_lift {A} (x : result A) : keeps_files (lift x).
Proof. intros w r w' [= <- <-]. reflexivity. Qed.

Lemma keeps_files_ret {A} (a : A) : keeps_files (ret a).
Proof. intros w r w' [= <- <-]. reflexivity. Qed.

Lemma keeps_files_write_goals t items : keeps_files (write_goals t items).
Proof.
  induction items as [|[m p] items IH]; simpl.
  - apply keeps_files_ret.
  - repeat (apply keeps_files_bind;
            [apply keeps_files_bus_write | intros _]).
    exact IH.
Qed.

Lemma keeps_files_play_step st : keeps_files (play_step st).
Proof.
  assert (Hmove : forall msg d s,
             keeps_files (say msg ;;; move_to_position (positions st) d ;;;
                          sleep s)).
  { intros msg d s. apply keeps_files_bind; [apply keeps_files_say|].
    intros _. apply keeps_files_bind; [|intros _; apply keeps_files_sleep].
    apply keeps_files_bind; [apply keeps_files_lift|].
    intros t. apply keeps_files_write_goals. }
  unfold play_step. destruct (position st =? 1)%Z; [apply Hmove|].
  destruct (duration st =? 0)%float; apply Hmove.
Qed.

Lemma keeps_files_play_steps steps : keeps_files (play_steps steps).
Proof.
  induction steps as [|st steps IH]; simpl.
  - apply keeps_files_ret.
  - apply keeps_files_bind; [apply keeps_files_play_step | intros _; exact IH].
Qed.

Lemma keeps_files_swallow m : keeps_files m -> keeps_files (swallow m).
Proof.
  intros Hm w r w'. unfold swallow. destruct (m w) as [r1 w1] eqn:E.
  intros [= <- <-]. exact (Hm _ _ _ E).
Qed.

Lemma keeps_files_remove_limits names : keeps_files (remove_limits names).
Proof.
  induction names as [|name names IH]; simpl.
  - apply keeps_files_ret.
  - apply keeps_files_bind; [|intros _; exact IH].
    apply keeps_files_swallow.
    apply keeps_files_bind; [apply keeps_files_bus_write|].
    intros _. apply keeps_files_bus_write.
Qed.

Lemma keeps_files_on_interrupt m handler :
  keeps_files m -> keeps_files handler -> keeps_files (on_interrupt m handler).
Proof.
  intros Hm Hh w r w'. unfold on_interrupt.
  destruct (m w) as [[a|e] w1] eqn:E; pose proof (Hm _ _ _ E) as F1.
  - intros [= <- <-]. exact F1.
  - destruct e; try (intros [= <- <-]; exact F1).
    intros H. rewrite (Hh _ _ _ H). exact F1.
Qed.

Lemma keeps_files_torque_on : keeps_files torque_on.
Proof.
  unfold torque_on. apply keeps_files_bind; [apply keeps_files_bus_write|].
  intros _. apply keeps_files_say.
Qed.

Lemma keeps_files_playback steps : keeps_files (playback steps).
Proof.
  unfold playback.
  apply keeps_files_bind; [apply keeps_files_torque_on | intros _].
  apply keeps_files_bind; [apply keeps_files_say | intros _].
  apply keeps_files_bind; [apply keeps_files_remove_limits | intros _].
  apply keeps_files_bind; [apply keeps_files_say | intros _].
  apply keeps_files_bind; [apply keeps_files_say | intros _].
  apply keeps_files_on_interrupt; [|apply keeps_files_say].
  apply keeps_files_bind; [apply keeps_files_play_steps|].
  intros _. apply keeps_files_say.
Qed.

Lemma Forall_shown_prints lines : Forall shown (map EPrint lines).
Proof.
  induction lines; simpl; constructor; [unfold shown; eauto | assumption].
Qed.

Lemma prints_quiet lines w :
  clock (prints lines w) = clock w /\ files (prints lines w) = files w.
Proof.
  unfold prints. revert w. induction lines as [|s lines IH]; intros w; simpl.
  - auto.
  - destruct (IH (print s w)) as (-> & ->). auto.
Qed.

(** The listing only prints. *)
Lemma list_steps_quiet sequence w r w' :
  list_steps sequence w = (r, w') ->
  clock w' = clock w /\ files w' = files w /\
  exists lines, later w w' (map EPrint lines).
Proof.
  revert w r w'.
  induction sequence as [|step sequence IH]; intros w r w'; simpl.
  - intros [= <- <-]. split; [|split]; auto.
    exists []. apply later_refl.
  - unfold bind at 1, lift. destruct (load_step step) as [st|e].
    2:{ intros [= <- <-]. split; [|split]; auto.
        exists []. apply later_refl. }
    unfold bind at 1, say. unfold bind at 1.
    destruct (list_steps sequence (print (listed_line st) w))
      as [[sts|e] w1] eqn:E;
      destruct (IH _ _ _ E) as (K & F & lines & L);
      intros [= <- <-]; (split; [exact K | split; [exact F|]]);
      exists (listed_line st :: lines);
      exact (later_trans _ _ _ _ _ (later_print _ _) L).
Qed.

Lemma open_sequence_quiet name data w r w' :
  open_sequence name data w = (r, w') ->
  clock w' = clock w /\ files w' = files w /\
  exists lines, later w w' (map EPrint lines).
Proof.
  unfold open_sequence. unfold bind at 1, lift.
  destruct (load_sequence data) as [sequence|e].
  2:{ intros [= <- <-]. split; [|split]; auto.
      exists []. apply later_refl. }
  unfold bind at 1. intros H.
  destruct (list_steps_quiet _ _ _ _ H) as (K & F & lines & L).
  match type of H with
  | list_steps _ (prints ?header _) = _ =>
      destruct (prints_quiet header w) as (K0 & F0);
      pose proof (later_prints header w) as L0
  end.
  split; [congruence | split; [congruence|]].
  eexists (_ ++ lines)%list. rewrite map_app.
  exact (later_trans _ _ _ _ _ L0 L).
Qed.

(** X5: [play_sequence] makes no bus call before the operator has answered
    its prompt: when the operator's next action is not a line of input (the
    interrupt, or a closed terminal), the run only shows text, calls the
    bus not once, leaves the disk alone, and, the file being there, ends
    with an exception. *)
Theorem play_sequence_waits_for_enter name stdin w r stdin' w' :
  play_sequence name stdin w = (r, stdin', w') ->
  (forall text rest, stdin <> Line text :: rest) ->
  clock w' = clock w /\ files w' = files w /\
  (exists l, later w w' l /\ Forall shown l) /\
  (is_Some (files w !! file_path name) -> exists e, r = Exc e).
Proof.
  unfold play_sequence. intros H Hno.
  destruct (files w !! file_path name) as [data|].
  2:{ injection H as <- <- <-. split; [|split; [|split]]; auto.
      - eexists. split; [apply later_print|].
        constructor; [unfold shown; eauto | constructor].
      - intros [x Hx]. discriminate. }
  destruct (open_sequence name data w) as [[steps|e] w1] eqn:E;
    destruct (open_sequence_quiet _ _ _ _ _ E) as (K & F & lines & L).
  2:{ injection H as <- <- <-. split; [|split; [|split]]; eauto.
      eexists. split; [exact L | apply Forall_shown_prints]. }
  unfold input in H.
  destruct stdin as [|[text|] rest]; [| exfalso; exact (Hno _ _ eq_refl) |];
    injection H as <- <- <-; (split; [|split; [|split]]); eauto;
    (eexists; split; [exact (later_trans _ _ _ _ _ L (later_emit _ _))|]);
    (apply Forall_app; split; [apply Forall_shown_prints|]);
    (constructor; [unfold shown; eauto | constructor]).
Qed.

(** X6: [play_sequence] never writes to the disk, whatever the file holds
    and however the run ends, and takes at most one answer from the
    operator. *)
Theorem play_sequence_leaves_the_disk name stdin w r stdin' w' :
  play_sequence name stdin w = (r, stdin', w') ->
  files w' = files w /\
  (stdin' = stdin \/ exists answer, stdin = answer :: stdin').
Proof.
  unfold play_sequence. intros H.
  destruct (files w !! file_path name) as [data|].
  2:{ injection H as <- <- <-. auto. }
  destruct (open_sequence name data w) as [[steps|e] w1] eqn:E;
    destruct (open_sequence_quiet _ _ _ _ _ E) as (_ & F & _).
  2:{ injection H as <- <- <-. auto. }
  unfold input in H. destruct stdin as [|[text|] rest].
  - injection H as <- <- <-. auto.
  - destruct (playback steps (emit _ w1)) as [r2 w2] eqn:P.
    injection H as <- <- <-.
    rewrite (keeps_files_playback _ _ _ _ P). simpl. eauto.
  - injection H as <- <- <-. simpl. eauto.
Qed.


Lemma lifting_writes l :
  Forall lifting l ->
  written "Goal_Time" l = [] /\ written "Goal_Position" l = [] /\
  torque_writes l = [] /\ sleeps l = [].
Proof.
  induction 1 as [|ev l (m & [-> | ->]) _ IH]; simpl; auto.
Qed.

Lemma moving_writes l :
  Forall moving l ->
  written "Min_Angle_Limit" l = [] /\ written "Max_Angle_Limit" l = [] /\
  torque_writes l = [].
Proof.
  induction 1 as [|ev l Hev _ IH]; simpl; [auto|].
  destruct Hev as [(s & ->) | [(s & ->) | [(t & m & ->) | (p & m & ->)]]];
    simpl; exact IH.
Qed.

Lemma remove_limits_returns names w : fst (remove_limits names w) = Ok tt.
Proof.
  revert w. induction names as [|name names IH]; intros w; [reflexivity|].
  simpl. unfold bind at 1, swallow. apply IH.
Qed.

(** The writes for one joint: both, or the first alone when it failed. *)
Lemma lift_one name w :
  motor_bus w = true ->
  exists l,
    later w (snd ((bus_write "Min_Angle_Limit" (Num 0) (Some name) ;;;
                   bus_write "Max_Angle_Limit" (Num 4095) (Some name)) w)) l /\
    ((l = [ EWrite "Min_Angle_Limit" (Num 0) (Some name);
            EWrite "Max_Angle_Limit" (Num 4095) (Some name) ] /\
      exists v, bus w (clock w) = Reply v) \/
     (l = [ EWrite "Min_Angle_Limit" (Num 0) (Some name) ] /\
      exists e, bus w (clock w) = Raises e)).
Proof.
  intros Hb. unfold bind at 1.
  destruct (bus_write_cases "Min_Angle_Limit" (Num 0) (Some name) w)
    as (w1 & S1 & [(Hf & _) | (L1 & K1 & _ & _ & C1)]); [congruence|].
  destruct (bus_write "Min_Angle_Limit" (Num 0) (Some name) w)
    as [r1 w1'] eqn:E1. simpl in S1, C1. subst w1'.
  pose proof (bus_on_later _ _ _ L1 Hb) as Hb1.
  destruct (bus w (clock w)) as [v|e] eqn:Hrep; subst r1.
  - destruct (bus_write_cases "Max_Angle_Limit" (Num 4095) (Some name) w1)
      as (w2 & S2 & [(Hf & _) | (L2 & _)]); [congruence|].
    subst w2. eexists. split; [exact (later_trans _ _ _ _ _ L1 L2)|].
    left. eauto.
  - eexists. split; [exact L1|]. right. eauto.
Qed.

Lemma responsive_later w w' l : later w w' l -> responsive w -> responsive w'.
Proof. intros (_ & Hbus & _) Hr n. rewrite Hbus. apply Hr. Qed.

Lemma remove_limits_trace names w :
  motor_bus w = true ->
  exists l,
    later w (snd (remove_limits names w)) l /\ Forall lifting l /\
    written "Min_Angle_Limit" l = names /\
    sublist (written "Max_Angle_Limit" l) names /\
    (responsive w -> written "Max_Angle_Limit" l = names).
Proof.
  revert w. induction names as [|name names IH]; intros w Hb.
  - exists []. split; [apply later_refl|]. split; [constructor|].
    split; [reflexivity|]. split; [constructor | reflexivity].
  - change (remove_limits (name :: names) w)
      with (remove_limits names
              (snd ((bus_write "Min_Angle_Limit" (Num 0) (Some name) ;;;
                     bus_write "Max_Angle_Limit" (Num 4095) (Some name)) w))).
    destruct (lift_one name w Hb) as (l1 & L1 & Hl1).
    destruct (IH _ (bus_on_later _ _ _ L1 Hb))
      as (l & L & F & Hmin & Hmax & Hall).
    exists (l1 ++ l)%list.
    split; [exact (later_trans _ _ _ _ _ L1 L)|].
    assert (Hlmin : lifting (EWrite "Min_Angle_Limit" (Num 0) (Some name)))
      by (exists name; auto).
    assert (Hlmax : lifting (EWrite "Max_Angle_Limit" (Num 4095) (Some name)))
      by (exists name; auto).
    destruct Hl1 as [(-> & v & Hv) | (-> & e & He)]; simpl.
    + split; [repeat constructor; assumption|].
      rewrite Hmin. split; [reflexivity|].
      split; [apply sublist_skip; exact Hmax|].
      intros Hr. rewrite Hall; [reflexivity|].
      exact (responsive_later _ _ _ L1 Hr).
    + split; [constructor; assumption|].
      rewrite Hmin. split; [reflexivity|].
      split; [apply sublist_cons; exact Hmax|].
      intros Hr. destruct (Hr (clock w)) as (v & Hv). congruence.
Qed.


Lemma moving_goal_writes t pos : Forall moving (goal_writes t pos).
Proof.
  induction pos as [|[m p] pos IH]; simpl; [constructor|].
  constructor; [right; right; left; eauto|].
  constructor; [right; right; right; eauto | exact IH].
Qed.

Lemma play_step_moving st w r w' :
  play_step st w = (r, w') -> exists l, later w w' l /\ Forall moving l.
Proof.
  assert (Hmove : forall msg d s,
             (say msg ;;; move_to_position (positions st) d ;;; sleep s) w
             = (r, w') -> exists l, later w w' l /\ Forall moving l).
  { intros msg d s H. pose proof (timed_move _ _ _ _ _ _ _ H) as T.
    assert (Hp : moving (EPrint msg)) by (left; eauto).
    destruct (time_ms d) as [t|e].
    - destruct T as [(_ & L) | (_ & n & L)]; eexists; (split; [exact L|]);
        constructor; try exact Hp.
      + apply Forall_app. split; [apply moving_goal_writes|].
        constructor; [right; left; eauto | constructor].
      + apply Forall_take, moving_goal_writes.
    - destruct T as (_ & L). eexists. split; [exact L|].
      constructor; [exact Hp | constructor]. }
  unfold play_step. destruct (position st =? 1)%Z; [apply Hmove|].
  destruct (duration st =? 0)%float; apply Hmove.
Qed.

Lemma play_steps_moving steps w r w' :
  play_steps steps w = (r, w') -> exists l, later w w' l /\ Forall moving l.
Proof.
  revert w. induction steps as [|st steps IH]; intros w; simpl.
  - intros [= <- <-]. exists []. split; [apply later_refl | constructor].
  - unfold bind at 1. destruct (play_step st w) as [[[]|e] w1] eqn:E;
      destruct (play_step_moving _ _ _ _ E) as (l1 & L1 & F1).
    + intros H. destruct (IH _ H) as (l & L & F).
      exists (l1 ++ l)%list. split; [exact (later_trans _ _ _ _ _ L1 L)|].
      apply Forall_app. auto.
    + intros [= <- <-]. eauto.
Qed.

(** The stages of [playback]: torque on, the limits, then the loop under
    its interrupt handler. *)
Lemma playback_stages steps w r w' :
  playback steps w = (r, w') ->
  (exists e, torque_on w = (Exc e, w') /\ r = Exc e) \/
  (exists w1, torque_on w = (Ok tt, w1) /\
     match play_steps steps
             (print (repeat_string 50 "=")
                (print (nl ++ "EXECUTING...")
                   (snd (remove_limits (keys motors_config)
                           (print "Ensuring limits are removed for playback..."
                                  w1)))))
     with
     | (Ok _, w4) => r = Ok tt /\ w' = print (nl ++ "SEQUENCE COMPLETE!") w4
     | (Exc KeyboardInterrupt, w4) =>
         r = Ok tt /\ w' = print (nl ++ "PLAYBACK STOPPED") w4
     | (Exc e, w4) => r = Exc e /\ w' = w4
     end).
Proof.
  unfold playback. unfold bind at 1.
  destruct (torque_on w) as [[[]|e] w1].
  2:{ intros [= <- <-]. left. eauto. }
  intros H. right. exists w1. split; [reflexivity|].
  revert H. unfold bind at 1, say. unfold bind at 1.
  pose proof (remove_limits_returns (keys motors_config)
                (print "Ensuring limits are removed for playback..." w1)) as Hr.
  destruct (remove_limits (keys motors_config) _) as [r3 w3]. simpl in Hr.
  subst r3. unfold bind at 1. unfold bind at 1. unfold on_interrupt.
  unfold bind at 1. simpl snd.
  destruct (play_steps steps _) as [[[]|e] w4].
  - intros [= <- <-]. auto.
  - destruct e; intros [= <- <-]; auto.
Qed.

Lemma torque_on_cases w r w' :
  torque_on w = (r, w') ->
  motor_bus w = true ->
  match bus w (clock w) with
  | Reply _ =>
      r = Ok tt /\
      later w w' [ EWrite "Torque_Enable" (Torque ENABLED) None;
                   EPrint "Torque ON - robot under control" ]
  | Raises e =>
      r = Exc e /\ later w w' [EWrite "Torque_Enable" (Torque ENABLED) None]
  end.
Proof.
  unfold torque_on. intros H Hb.
  destruct (torque_write_cases _ _ _ _ _ H) as (_ & [(Hf & _) | (_ & C)]);
    [congruence|].
  destruct (bus w (clock w)); [destruct C as (? & _ & ?) | ]; auto.
Qed.

(** X8: playback powers the arm before anything else: on a connected arm
    its first bus call writes torque on and it writes torque only that
    once; when that write fails nothing more is done; when it goes through,
    every joint gets its lower-limit write before the first goal write,
    and no limit is written once the moves have begun. *)
Theorem playback_powers_the_arm_first steps w r w' :
  motor_bus w = true ->
  playback steps w = (r, w') ->
  exists l,
    later w w' (EWrite "Torque_Enable" (Torque ENABLED) None :: l) /\
    torque_writes l = [] /\
    (forall e, bus w (clock w) = Raises e -> r = Exc e /\ l = []) /\
    ((exists v, bus w (clock w) = Reply v) ->
     exists la lb,
       l = (la ++ lb)%list /\
       written "Min_Angle_Limit" la = keys motors_config /\
       written "Goal_Time" la = [] /\ written "Goal_Position" la = [] /\
       written "Min_Angle_Limit" lb = [] /\
       written "Max_Angle_Limit" lb = []).
Proof.
  intros Hb H.
  destruct (playback_stages _ _ _ _ H) as [(e & Ht & ->) | (w1 & Ht & Hloop)];
    pose proof (torque_on_cases _ _ _ Ht Hb) as C.
  - destruct (bus w (clock w)) as [v|e'] eqn:Hrep; destruct C as (Hr & L);
      [discriminate|].
    exists []. split; [exact L|]. split; [reflexivity|]. split.
    + intros e0 [= <-]. auto.
    + intros (v & Hv). discriminate.
  - destruct (bus w (clock w)) as [v|e'] eqn:Hrep; destruct C as (Hr & L1);
      [|discriminate].
    pose proof (bus_on_later _ _ _ L1 Hb) as Hb1.
    set (w2 := print "Ensuring limits are removed for playback..." w1) in *.
    destruct (remove_limits_trace (keys motors_config) w2 Hb1)
      as (ll & Ll & Fl & Hmin & _).
    destruct (lifting_writes _ Fl) as (Hgt & Hgp & Htl & _).
    set (w3 := snd (remove_limits (keys motors_config) w2)) in *.
    set (w5 := print (repeat_string 50 "=") (print (nl ++ "EXECUTING...") w3))
      in *.
    destruct (play_steps steps w5) as [rp w4] eqn:P.
    destruct (play_steps_moving _ _ _ _ P) as (lm & Lm & Fm).
    assert (Htail : exists tail, later w4 w' tail /\ Forall moving tail).
    { destruct rp as [[]|e]; [|destruct e]; destruct Hloop as (_ & ->);
        try (exists []; split; [apply later_refl | constructor]);
        (eexists; split; [apply later_print|]);
        (constructor; [left; eauto | constructor]). }
    destruct Htail as (tail & Lt & Ft).
    assert (Fb : Forall moving
                   ([EPrint (nl ++ "EXECUTING...");
                     EPrint (repeat_string 50 "=")] ++ lm ++ tail)).
    { constructor; [left; eauto|]. constructor; [left; eauto|].
      apply Forall_app. auto. }
    destruct (moving_writes _ Fb) as (Hbmin & Hbmax & Hbt).
    exists (([EPrint "Torque ON - robot under control";
              EPrint "Ensuring limits are removed for playback..."] ++ ll)
              ++ ([EPrint (nl ++ "EXECUTING...");
                   EPrint (repeat_string 50 "=")] ++ lm ++ tail))%list.
    split; [|split; [|split]].
    + assert (L2 : later w1 w2
                     [EPrint "Ensuring limits are removed for playback..."])
        by apply later_print.
      assert (L5 : later w3 w5 [EPrint (nl ++ "EXECUTING...");
                                EPrint (repeat_string 50 "=")]).
      { unfold w5. unfold later. simpl. rewrite <- app_assoc. tauto. }
      eapply later_eq.
      * exact (later_trans _ _ _ _ _ L1
                 (later_trans _ _ _ _ _ L2
                    (later_trans _ _ _ _ _ Ll
                       (later_trans _ _ _ _ _ L5
                          (later_trans _ _ _ _ _ Lm Lt))))).
      * simpl. rewrite <- ?app_assoc. reflexivity.
    + rewrite torque_writes_app, Hbt. simpl. rewrite Htl. reflexivity.
    + intros e0 He0. discriminate.
    + intros _. eexists _, _. split; [reflexivity|].
      simpl. auto.
Qed.








(** X11: the duration prompt keeps numbers the player cannot play. An
    answer that [float] reads as a number not below zero is recorded even
    when [int] cannot convert it to milliseconds (an infinity, a NaN); at
    playback the step of that duration raises before a single write of its
    move is made. *)
Theorem recorder_keeps_unplayable_durations
    text d e rest sequence n pos w w1 :
  py_float (strip text) = Some d ->
  (d <? 0)%float = false -> (d =? 0)%float = false ->
  int_of_float (d * 1000)%float = Exc e ->
  n <> 1 ->
  get_positions (prompted n w) = (Ok pos, w1) ->
  record_loop (Line text :: rest) sequence n w
  = record_loop rest (sequence ++ [mkStep n pos d])%list (n + 1)
                (print (recorded_line n pos d) w1) /\
  forall w2, exists msg,
    play_step (mkStep n pos d) w2 = (Exc e, print msg w2).
Proof.
  intros Hf Hneg Hzero Hint Hn Hg. split.
  - cbn [record_loop]. fold (prompted n w). rewrite Hf, Hneg, Hg. reflexivity.
  - intros w2. unfold play_step. cbn [position positions duration].
    apply Z.eqb_neq in Hn. rewrite Hn, Hzero.
    unfold bind at 1, say. unfold bind at 1.
    unfold move_to_position, bind at 1, lift, time_ms.
    rewrite Hzero, Hint. eauto.
Qed.

(** ** The command line *)

(** X12: the exit status of [main]'s handler. When the cleanup goes through
    (there is no bus to disconnect, or the bus takes the disconnection),
    the status is 0 after a body that returned and 1 after a body that
    raised an [Exception], and a [KeyboardInterrupt] of the body leaves
    [main]; when the disconnection raises, its exception leaves [main]
    instead, whatever the body did. The operator's pending input is what
    the body left. *)
Theorem handler_exit_status
    (body : list input_event -> World
            -> result unit * list input_event * World)
    stdin w r stdin1 w1 :
  body stdin w = (r, stdin1, w1) ->
  (motor_bus w1 = false \/ (exists v, bus w1 (clock w1) = Reply v) ->
   fst (fst (guarded body stdin w))
   = match r with
     | Ok _ => Ok 0
     | Exc e => if is_Exception e then Ok 1 else Exc e
     end) /\
  (forall e', motor_bus w1 = true -> bus w1 (clock w1) = Raises e' ->
              fst (fst (guarded body stdin w)) = Exc e') /\
  snd (fst (guarded body stdin w)) = stdin1.
Proof.
  clear py_float py_repr. intros Hbody.
  assert (Hd : forall w0, motor_bus w0 = motor_bus w1 -> bus w0 = bus w1 ->
                          clock w0 = clock w1 ->
             (motor_bus w1 = false \/ (exists v, bus w1 (clock w1) = Reply v) ->
              fst (disconnect w0) = Ok tt) /\
             (forall e', motor_bus w1 = true ->
                         bus w1 (clock w1) = Raises e' ->
                         fst (disconnect w0) = Exc e')).
  { intros w0 Hb Hbus Hc. unfold disconnect, bind, say, bus_call.
    rewrite Hb, Hbus, Hc. split.
    - intros [-> | (v & ->)]; [reflexivity|].
      destruct (motor_bus w1); reflexivity.
    - intros e' -> ->. reflexivity. }
  unfold guarded. rewrite Hbody.
  destruct r as [[]|e]; [|destruct (is_Exception e)].
  - destruct (Hd w1 eq_refl eq_refl eq_refl) as (Hok & Hraise).
    destruct (disconnect w1) as [[[]|e1] wd]; simpl in *.
    + split; [auto|]. split; [|reflexivity].
      intros e' Hb Hr. specialize (Hraise e' Hb Hr). discriminate.
    + split; [intros Hc; specialize (Hok Hc); discriminate|].
      split; [|reflexivity]. intros e' Hb Hr.
      specialize (Hraise e' Hb Hr). congruence.
  - destruct (Hd (print ("ERROR: " ++ exn_name e) w1) eq_refl eq_refl eq_refl)
      as (Hok & Hraise).
    destruct (disconnect (print ("ERROR: " ++ exn_name e) w1))
      as [[[]|e1] wd]; simpl in *.
    + split; [auto|]. split; [|reflexivity].
      intros e' Hb Hr. specialize (Hraise e' Hb Hr). discriminate.
    + split; [intros Hc; specialize (Hok Hc); discriminate|].
      split; [|reflexivity]. intros e' Hb Hr.
      specialize (Hraise e' Hb Hr). congruence.
  - destruct (Hd w1 eq_refl eq_refl eq_refl) as (Hok & Hraise).
    destruct (disconnect w1) as [[[]|e1] wd]; simpl in *.
    + split; [auto|]. split; [|reflexivity].
      intros e' Hb Hr. specialize (Hraise e' Hb Hr). discriminate.
    + split; [intros Hc; specialize (Hok Hc); discriminate|].
      split; [|reflexivity]. intros e' Hb Hr.
      specialize (Hraise e' Hb Hr). congruence.
Qed.

(** ** The time written for a recorded duration *)

Lemma rounded_sign sx mx ex lx :
  match binary_round_aux prec emax sx mx ex lx with
  | S754_zero s | S754_infinity s | S754_finite s _ _ => s = sx
  | S754_nan => True
  end.
Proof.
  unfold binary_round_aux.
  destruct (shr_fexp prec emax mx ex lx) as [mrs' e'].
  destruct (shr_fexp prec emax _ e' loc_Exact) as [mrs'' e''].
  destruct (shr_m mrs''); [reflexivity | | exact I].
  destruct (e'' <=? emax - prec)%Z; reflexivity.
Qed.

(** X13: a duration the prompt accepts is never turned into a negative
    time: whenever [move_to_position] has a time to write for it, that
    time is zero or more milliseconds. *)
Theorem accepted_duration_time_not_negative text d t :
  accepted text = Some d -> time_ms d = Ok t -> 0 <= t.
Proof.
  unfold accepted. destruct (py_float (strip text)) as [d'|]; [|discriminate].
  destruct (d' <? 0)%float eqn:Hneg; [discriminate|]. intros [= ->].
  clear py_float py_repr text.
  unfold time_ms. destruct (d =? 0)%float; [intros [= <-]; lia|].
  rewrite ltb_spec in Hneg. change (Prim2SF 0) with (S754_zero false) in Hneg.
  unfold int_of_float. rewrite mul_spec.
  set (k := Prim2SF 1000). vm_compute in k. subst k.
  unfold SFltb in Hneg.
  destruct (Prim2SF d) as [s | s | | s m e]; simpl in *;
    try discriminate; try (intros [= <-]; lia).
  destruct s; [discriminate|]. simpl xorb.
  match goal with
  | |- context [binary_round_aux prec emax false ?mx ?ex ?lx] =>
      pose proof (rounded_sign false mx ex lx) as Hs;
      destruct (binary_round_aux prec emax false mx ex lx)
        as [s' | s' | | s' m' e']
  end; try discriminate; try (intros [= <-]; lia).
  subst s'. intros [= <-].
  destruct (0 <=? e')%Z eqn:He.
  - apply Z.leb_le in He. apply Z.mul_nonneg_nonneg; [lia|].
    apply Z.pow_nonneg. lia.
  - apply Z.leb_gt in He. apply Z.div_pos; [lia|].
    apply Z.pow_pos_nonneg; lia.
Qed.

(** ** From a recording to its playback *)





(** ** Files the player cannot read *)

Lemma list_steps_stops pre bad post w e :
  load_step bad = Exc e ->
  list_steps (map step_to_json pre ++ bad :: post) w
  = (Exc e, prints (map listed_line pre) w).
Proof.
  intros Hbad. revert w. induction pre as [|st pre IH]; intros w; simpl.
  - unfold bind at 1, lift. rewrite Hbad. reflexivity.
  - unfold bind at 1, lift. rewrite load_step_written.
    unfold bind at 1, say. unfold bind at 1. rewrite IH. reflexivity.
Qed.

(** X15: a file with a key missing stops [play_sequence] with [KeyError]
    before the operator is prompted and before any bus call. Without the
    key ["sequence"] nothing at all is shown; with a step that has no
    ["positions"], the heading and the steps before that one are listed,
    and nothing more happens. *)
Theorem missing_key_stops_before_the_prompt name stdin w data :
  files w !! file_path name = Some data ->
  (forall kvs,
      data = JObj kvs -> dict_get "sequence" kvs = None ->
      play_sequence name stdin w = (Exc KeyError, stdin, w)) /\
  (forall pre kvs post,
      load_sequence data
      = Ok (map step_to_json pre ++ JObj kvs :: post)%list ->
      dict_get "positions" kvs = None ->
      play_sequence name stdin w
      = (Exc KeyError, stdin,
         prints (map listed_line pre)
           (prints [ nl ++ repeat_string 60 "=";
                     "PLAYING SEQUENCE: " ++ name;
                     repeat_string 60 "=";
                     "Positions: "
                       ++ pretty (length pre + S (length post))%nat ] w))).
Proof.
  intros Hfile. split.
  - intros kvs -> Hnone. unfold play_sequence. rewrite Hfile.
    unfold open_sequence, bind, lift, load_sequence, getitem.
    rewrite Hnone. reflexivity.
  - intros pre kvs post Hload Hnone. unfold play_sequence. rewrite Hfile.
    unfold open_sequence. unfold bind at 1, lift. rewrite Hload.
    unfold bind at 1. rewrite list_steps_stops with (e := KeyError).
    + rewrite length_app, length_map. reflexivity.
    + unfold load_step, getitem. rewrite Hnone. reflexivity.
Qed.

End Sequencer.

(** ** The theorems at work on the sample worlds *)

(** The session of the specification's example: start, a position reached
    in 2.0 s, a fast one, then the interrupt; four steps are saved, the last
    one a copy of the start with duration 1.0. *)
Example four_steps_are_saved :
  let run := record_sequence sample_float sample_repr "demo" sample_session
               (world_of healthy_bus) in
  exists saved,
    files (snd run) !! file_path "demo"
    = Some (sequence_data "demo" "2025-01-01 00:00:00" saved) /\
    map position saved = [1; 2; 3; 4] /\
    map duration saved = [0; 2; 0; 1]%float /\
    map positions (drop 3 saved) = map positions (take 1 saved).
Proof.
  exists (closed (capture sample_float sample_repr sample_session
                    (snd (opening "demo" (world_of healthy_bus))))).
  vm_compute. repeat split; reflexivity.
Qed.

Lemma closing_step_added_once_at_sample :
  let run := record_sequence sample_float sample_repr "demo" sample_session
               (world_of healthy_bus) in
  fst run = (Ok tt, []) /\
  exists w1 saved,
    opening "demo" (world_of healthy_bus) = (Ok tt, w1) /\
    files (snd run) !! file_path "demo"
    = Some (sequence_data "demo" "2025-01-01 00:00:00" saved) /\
    ((1 < length (sequence_at (capture sample_float sample_repr
                                 sample_session w1)))%nat ->
     exists first closing,
       head (sequence_at (capture sample_float sample_repr
                            sample_session w1)) = Some first /\
       saved = (sequence_at (capture sample_float sample_repr
                               sample_session w1) ++ [closing])%list /\
       positions closing = positions first /\
       duration closing = 1%float /\
       position closing = Z.of_nat (length saved)).
Proof.
  split; [vm_compute; reflexivity|].
  destruct (closing_step_added_once sample_float sample_repr "demo"
              sample_session (world_of healthy_bus) []
              (snd (record_sequence sample_float sample_repr "demo"
                      sample_session (world_of healthy_bus))))
    as (w1 & saved & Ho & _ & Hf & Hmany & _).
  { vm_compute. reflexivity. }
  exists w1, saved. split; [exact Ho|]. split; [exact Hf | exact Hmany].
Defined.

Lemma torque_restored_when_interrupted_at_sample :
  let run := record_sequence sample_float sample_repr "demo" sample_session
               (world_of healthy_bus) in
  fst run = (Ok tt, []) /\
  exists l,
    later (world_of healthy_bus) (snd run)
          (map EPrint (record_banner "demo")
             ++ EWrite "Torque_Enable" (Torque DISABLED) None :: l) /\
    torque_writes l = [ENABLED].
Proof.
  split; [vm_compute; reflexivity|].
  destruct (torque_restored_when_interrupted sample_float sample_repr "demo"
              sample_session (world_of healthy_bus) (Ok tt) []
              (snd (record_sequence sample_float sample_repr "demo"
                      sample_session (world_of healthy_bus))))
    as ((l & L & Hok & _) & _).
  { reflexivity. }
  { vm_compute. reflexivity. }
  exists l. split; [exact L | exact (proj1 (Hok eq_refl))].
Defined.

(** A session whose first read fails: the error leaves [record_sequence],
    the handler of [main] reports it and disconnects, and the only torque
    write of the whole run is the one that switched torque off. *)
Lemma torque_stays_off_after_a_failed_read :
  let session := record_sequence sample_float sample_repr "demo" [enter]
                   (world_of failing_bus) in
  let top := guarded (record_sequence sample_float sample_repr "demo")
               [enter] (world_of failing_bus) in
  fst (fst session) = Exc OSError /\
  torque_writes (log (snd session)) = [DISABLED] /\
  fst (fst top) = Ok 1 /\
  log (snd top)
  = (log (snd session)
       ++ [EPrint "ERROR: OSError"; EDisconnect; EPrint "Disconnected"])%list /\
  torque_writes (log (snd top)) = [DISABLED].
Proof. vm_compute. repeat split; reflexivity. Qed.

Lemma playback_waits_at_sample :
  let run := play_steps sample_repr sample_steps (world_of healthy_bus) in
  fst run = Ok tt /\
  sleeps (log (snd run)) = [1.2; 9; 1]%float /\
  exists l k,
    later (world_of healthy_bus) (snd run) l /\
    (Ok tt = Ok tt -> k = length sample_steps) /\
    Forall2 waits_as_timed (take k sample_steps) (sleeps l).
Proof.
  split; [vm_compute; reflexivity|]. split; [vm_compute; reflexivity|].
  apply (proj2 (playback_waits sample_repr) sample_steps
               (world_of healthy_bus)).
  vm_compute. reflexivity.
Defined.

Lemma start_step_is_fast_at_sample :
  let st := mkStep 1 sample_pose 2 in
  let run := play_step sample_repr st (world_of healthy_bus) in
  fst run = Ok tt /\
  exists msg,
    later (world_of healthy_bus) (snd run)
          (EPrint msg :: goal_writes 800 sample_pose ++ [ESleep 1.2%float]).
Proof.
  split; [vm_compute; reflexivity|].
  destruct (start_step_is_fast sample_repr (mkStep 1 sample_pose 2)
              (world_of healthy_bus) (Ok tt)
              (snd (play_step sample_repr (mkStep 1 sample_pose 2)
                      (world_of healthy_bus))))
    as ((msg & [(_ & L) | ((e & He) & _)]) & _).
  { reflexivity. }
  { vm_compute. reflexivity. }
  - exists msg. exact L.
  - discriminate He.
Defined.

Lemma invalid_duration_changes_nothing_at_sample :
  record_loop sample_float sample_repr (Line "-1" :: [Ctrl_C]) sample_steps 4
              (world_of healthy_bus)
  = record_loop sample_float sample_repr [Ctrl_C] sample_steps 4
      (print "Duration cannot be negative" (prompted 4 (world_of healthy_bus))).
Proof.
  destruct (invalid_duration_changes_nothing sample_float sample_repr "-1"
              [Ctrl_C] sample_steps 4 (world_of healthy_bus)) as (E & _).
  { right. exists (-1)%float. split; reflexivity. }
  exact E.
Defined.

Lemma saved_sequence_loads_back_at_sample :
  let w := world_of healthy_bus in
  let data := sequence_data "demo" "2025-01-01 00:00:00" sample_steps in
  let w1 := store (file_path "demo") data w in
  dump (file_path "demo") data w = (Ok tt, w1) /\
  exists w3,
    open_sequence sample_repr "demo" data w1 = (Ok sample_steps, w3) /\
    play_sequence sample_repr "demo" [enter] w1
    = match input (nl ++ "Press ENTER to start playback...") [enter] w3 with
      | (Exc e, rest, w) => (Exc e, rest, w)
      | (Ok _, rest, w) =>
          let (r, w) := playback sample_repr sample_steps w in (r, rest, w)
      end.
Proof.
  split; [reflexivity|].
  destruct (saved_sequence_loads_back sample_repr "demo" "2025-01-01 00:00:00"
              sample_steps (world_of healthy_bus)
              (store (file_path "demo")
                     (sequence_data "demo" "2025-01-01 00:00:00" sample_steps)
                     (world_of healthy_bus))
              (store (file_path "demo")
                     (sequence_data "demo" "2025-01-01 00:00:00" sample_steps)
                     (world_of healthy_bus))
              [enter])
    as (data & w3 & Hd & Ho & _ & Hp).
  { reflexivity. }
  { reflexivity. }
  exists w3. simpl in Hd. rewrite lookup_insert_eq in Hd.
  injection Hd as <-. split; [exact Ho | exact Hp].
Defined.

Lemma get_positions_reads_every_joint_at_sample :
  exists w',
    get_positions (world_of healthy_bus)
    = (Ok [ ("shoulder_pan", 0); ("shoulder_lift", 1); ("elbow_flex", 2);
            ("wrist_flex", 3); ("wrist_roll", 4); ("gripper", 5) ], w') /\
    later (world_of healthy_bus) w'
          (map (ERead "Present_Position") (keys motors_config)).
Proof.
  apply (get_positions_reads_every_joint (world_of healthy_bus)
           [PSeq [0]; PSeq [1]; PSeq [2]; PSeq [3]; PSeq [4]; PSeq [5]]
           [0; 1; 2; 3; 4; 5]).
  - reflexivity.
  - reflexivity.
  - repeat constructor; right; reflexivity.
Defined.

(** A bus that answers every read with an array of two integers: each of
    the six reads is answered, and [get_positions] returns no mapping. *)
Lemma get_positions_refuses_longer_arrays :
  motor_bus (world_of pair_bus) = true /\
  answers (world_of pair_bus) (length motors_config)
  = repeat (Reply (PSeq [5; 6])) 6 /\
  fst (get_positions (world_of pair_bus)) = Exc TypeError.
Proof. repeat split; reflexivity. Qed.

Lemma missing_sequence_is_reported_at_sample :
  exists w',
    play_sequence sample_repr "demo" [enter] (world_of healthy_bus)
    = (Ok tt, [enter], w') /\
    later (world_of healthy_bus) w'
          [EPrint ("Sequence file not found: " ++ file_path "demo")] /\
    clock w' = clock (world_of healthy_bus) /\
    files w' = files (world_of healthy_bus).
Proof.
  apply (missing_sequence_is_reported sample_repr "demo" [enter]
           (world_of healthy_bus)).
  reflexivity.
Defined.

Lemma move_to_position_goal_time_first_at_sample :
  let run := move_to_position sample_pose 2 (world_of healthy_bus) in
  fst run = Ok tt /\
  time_ms 2 = Ok 2000 /\
  exists new,
    later (world_of healthy_bus) (snd run) new /\
    new = goal_writes 2000 sample_pose.
Proof.
  split; [vm_compute; reflexivity|]. split; [vm_compute; reflexivity|].
  destruct (move_to_position_goal_time_first sample_pose 2
              (world_of healthy_bus) (Ok tt)
              (snd (move_to_position sample_pose 2 (world_of healthy_bus))))
    as (_ & _ & H).
  { vm_compute. reflexivity. }
  destruct (H 2000) as (new & L & _ & _ & Hfull & _).
  { vm_compute. reflexivity. }
  exists new. split; [exact L | exact (Hfull eq_refl)].
Defined.

Lemma recorded_steps_are_numbered_at_sample :
  let run := record_sequence sample_float sample_repr "demo" sample_session
               (world_of healthy_bus) in
  fst run = (Ok tt, []) /\
  exists saved data,
    files (snd run) !! file_path "demo" = Some data /\
    data = sequence_data "demo" "2025-01-01 00:00:00" saved /\
    map position saved = count_from 1 (length saved) /\
    getitem data "total_positions" = Ok (JInt (Z.of_nat (length saved))).
Proof.
  split; [vm_compute; reflexivity|].
  destruct (recorded_steps_are_numbered sample_float sample_repr "demo"
              sample_session (world_of healthy_bus)) as (_ & H).
  destruct (H [] (snd (record_sequence sample_float sample_repr "demo"
                         sample_session (world_of healthy_bus))))
    as (saved & data & Hf & Hd & _ & _ & Hp & Ht).
  { vm_compute. reflexivity. }
  exists saved, data. auto.
Defined.

(** ** The further properties at work on the sample worlds *)

Lemma healthy_bus_answers : answering (world_of healthy_bus).
Proof.
  intros n. exists (PSeq [Z.of_nat n]), (Z.of_nat n).
  split; [reflexivity | right; reflexivity].
Qed.



Lemma session_saves_accepted_answers_at_sample :
  exists w' saved,
    record_sequence sample_float sample_repr "demo" sample_session
                    (world_of healthy_bus) = (Ok tt, [], w') /\
    files w' !! file_path "demo"
    = Some (sequence_data "demo" "2025-01-01 00:00:00" saved) /\
    map duration saved = [0; 2; 0; 1]%float /\
    map position saved = count_from 1 (length saved).
Proof.
  exact (session_saves_accepted_answers sample_float sample_repr "demo"
           EmptyString [" 2.0 "; "abc"; "0"] [] (world_of healthy_bus)
           eq_refl healthy_bus_answers eq_refl).
Defined.

Lemma session_without_interrupt_saves_nothing_at_sample :
  exists w' l,
    record_sequence sample_float sample_repr "demo" [enter; Line "2.0"]
                    (world_of healthy_bus) = (Exc EOFError, [], w') /\
    files w' = files (world_of healthy_bus) /\
    later (world_of healthy_bus) w' l /\ torque_writes l = [DISABLED].
Proof.
  exact (session_without_interrupt_saves_nothing sample_float sample_repr
           "demo" [EmptyString; "2.0"] (world_of healthy_bus)
           eq_refl healthy_bus_answers).
Defined.


Lemma play_sequence_waits_for_enter_at_sample :
  let run := play_sequence sample_repr "demo" [Ctrl_C]
               (world_with_demo healthy_bus) in
  fst run = (Exc KeyboardInterrupt, []) /\
  clock (snd run) = clock (world_with_demo healthy_bus) /\
  files (snd run) = files (world_with_demo healthy_bus).
Proof.
  split; [vm_compute; reflexivity|].
  destruct (play_sequence_waits_for_enter sample_repr "demo" [Ctrl_C]
              (world_with_demo healthy_bus) (Exc KeyboardInterrupt) []
              (snd (play_sequence sample_repr "demo" [Ctrl_C]
                      (world_with_demo healthy_bus))))
    as (K & F & _).
  { vm_compute. reflexivity. }
  { intros text rest. discriminate. }
  split; [exact K | exact F].
Defined.

Lemma play_sequence_leaves_the_disk_at_sample :
  let run := play_sequence sample_repr "demo" [enter; Line "more"]
               (world_with_demo healthy_bus) in
  fst run = (Ok tt, [Line "more"]) /\
  files (snd run) = files (world_with_demo healthy_bus).
Proof.
  split; [vm_compute; reflexivity|].
  destruct (play_sequence_leaves_the_disk sample_repr "demo"
              [enter; Line "more"] (world_with_demo healthy_bus) (Ok tt)
              [Line "more"]
              (snd (play_sequence sample_repr "demo" [enter; Line "more"]
                      (world_with_demo healthy_bus))))
    as (F & _).
  { vm_compute. reflexivity. }
  exact F.
Defined.


Lemma playback_powers_the_arm_first_at_sample :
  let run := playback sample_repr sample_steps (world_of healthy_bus) in
  fst run = Ok tt /\
  exists l,
    later (world_of healthy_bus) (snd run)
          (EWrite "Torque_Enable" (Torque ENABLED) None :: l) /\
    torque_writes l = [].
Proof.
  split; [vm_compute; reflexivity|].
  destruct (playback_powers_the_arm_first sample_repr sample_steps
              (world_of healthy_bus) (Ok tt)
              (snd (playback sample_repr sample_steps (world_of healthy_bus))))
    as (l & L & T & _).
  { reflexivity. }
  { vm_compute. reflexivity. }
  exists l. auto.
Defined.




Lemma recorder_keeps_unplayable_durations_at_sample :
  let w := world_of healthy_bus in
  let pos := [ ("shoulder_pan", 0); ("shoulder_lift", 1); ("elbow_flex", 2);
               ("wrist_flex", 3); ("wrist_roll", 4); ("gripper", 5) ] in
  sample_float (strip " inf ") = Some infinity /\
  int_of_float (infinity * 1000)%float = Exc OverflowError /\
  fst (get_positions (prompted 2 w)) = Ok pos /\
  forall w2, exists msg,
    play_step sample_repr (mkStep 2 pos infinity) w2
    = (Exc OverflowError, print msg w2).
Proof.
  cbv zeta.
  split; [vm_compute; reflexivity|]. split; [vm_compute; reflexivity|].
  split; [vm_compute; reflexivity|].
  destruct (recorder_keeps_unplayable_durations sample_float sample_repr
              " inf " infinity OverflowError [] [] 2
              [ ("shoulder_pan", 0); ("shoulder_lift", 1); ("elbow_flex", 2);
                ("wrist_flex", 3); ("wrist_roll", 4); ("gripper", 5) ]
              (world_of healthy_bus)
              (snd (get_positions (prompted 2 (world_of healthy_bus)))))
    as (_ & H).
  { vm_compute. reflexivity. }
  { vm_compute. reflexivity. }
  { vm_compute. reflexivity. }
  { vm_compute. reflexivity. }
  { discriminate. }
  { vm_compute. reflexivity. }
  exact H.
Defined.

Lemma handler_exit_status_at_sample :
  let body := record_sequence sample_float sample_repr "demo" in
  fst (fst (body [enter] (world_of failing_bus))) = Exc OSError /\
  fst (fst (guarded body [enter] (world_of failing_bus))) = Ok 1.
Proof.
  cbv zeta. split; [vm_compute; reflexivity|].
  destruct (handler_exit_status
              (record_sequence sample_float sample_repr "demo") [enter]
              (world_of failing_bus) (Exc OSError) []
              (snd (record_sequence sample_float sample_repr "demo" [enter]
                      (world_of failing_bus))))
    as (H & _).
  { vm_compute. reflexivity. }
  apply H. right. exists (PInt 0). vm_compute. reflexivity.
Defined.

Lemma accepted_duration_time_not_negative_at_sample :
  accepted sample_float " 2.0 " = Some 2%float /\
  time_ms 2 = Ok 2000 /\ 0 <= 2000.
Proof.
  split; [vm_compute; reflexivity|]. split; [vm_compute; reflexivity|].
  apply (accepted_duration_time_not_negative sample_float " 2.0 " 2%float);
    vm_compute; reflexivity.
Defined.


Lemma missing_key_stops_before_the_prompt_at_sample :
  let w := store (file_path "demo") (JObj [("name", JStr "demo")])
                 (world_of healthy_bus) in
  play_sequence sample_repr "demo" [enter] w = (Exc KeyError, [enter], w).
Proof.
  cbv zeta.
  destruct (missing_key_stops_before_the_prompt sample_repr "demo" [enter]
              (store (file_path "demo") (JObj [("name", JStr "demo")])
                     (world_of healthy_bus))
              (JObj [("name", JStr "demo")]))
    as (H & _).
  { vm_compute. reflexivity. }
  apply (H [("name", JStr "demo")]); reflexivity.
Defined.

Lemma main_stops_at_connect_at_sample :
  main sample_float sample_repr record "demo" "COM15" sample_session
       world_without_bus
  = (Ok 1, sample_session,
     print "ERROR: NameError"
           (print "Connecting to robot on COM15..." world_without_bus)).
Proof.
  apply (main_stops_at_connect sample_float sample_repr record "demo" "COM15"
           sample_session world_without_bus).
  reflexivity.
Defined.
